(** * The register mapper: log entries reconciled into a keyed record store

    A shallow embedding of [registers/mapper/main.go].  The mapper scans a
    Trillian log; each leaf carries an [Entry] (with a [key] and an
    [entry-timestamp]) and an [Item].  For every leaf it reads the record
    stored under the key in a Trillian map and creates, replaces, merges or
    skips.

    What the Go program takes from libraries is kept abstract here:
    [encoding/json], [time.Parse], [crypto/sha256] are the fields of the class
    [GoLibs]; the gRPC client [trillian.TrillianMapClient] is the class
    [TrillianMapClient].  Diagnostics ([log.Printf], [fmt.Printf]) have no
    effect on the store and are left out. *)

From stdpp Require Import gmap strings list fin_maps.
From Stdlib Require Import ZArith.
From Stdlib Require Strings.Byte.

#[local] Open Scope Z_scope.

(** ** Go values *)

(** [[]byte] *)
Abbreviation bytes := (list Byte.byte).

#[global] Instance byte_eq_dec : EqDecision Byte.byte := Byte.byte_eq_dec.

#[global] Instance byte_countable : Countable Byte.byte :=
  inj_countable Byte.to_N Byte.of_N Byte.of_to_N.

(** [[]byte(s)] for a Go string [s] *)
Definition bytes_of (s : string) : bytes := String.list_byte_of_string s.

(** A Go [error] value; only its message is kept. *)
Definition error := string.

(** The pair [(T, error)] a Go function returns: a value with a nil error, or
    an error. *)
Inductive result (A : Type) : Type :=
| Ok (a : A)
| Err (err : error).
Arguments Ok {A} a.
Arguments Err {A} err.

(** A [float64] read from JSON.  [encoding/json] refuses numbers that do not
    fit and never yields a NaN or an infinity, so the numbers of the program
    are the finite ones: a sign bit and the remaining 63 bits of the IEEE-754
    pattern (exponent and fraction).  The two zeros have [f_mag = 0]. *)
Record float64 : Type := { f_neg : bool; f_mag : N }.

(** Go's [==] on two finite [float64]: same pattern, or both zero. *)
Definition float64_eq (a b : float64) : bool :=
  ((f_mag a =? 0)%N && (f_mag b =? 0)%N)
  || (Bool.eqb (f_neg a) (f_neg b) && (f_mag a =? f_mag b)%N).

(** What [encoding/json] stores in an [interface{}]: nil for [null], [bool],
    [float64], [string], [[]interface{}] and [map[string]interface{}]. *)
#[local] Unset Elimination Schemes.
Inductive value : Type :=
| VNil
| VBool (b : bool)
| VFloat64 (f : float64)
| VString (s : string)
| VSlice (l : list value)
| VMap (m : gmap string value).
#[local] Set Elimination Schemes.

(** A variable of type [map[string]interface{}]: nil, or a map. *)
Abbreviation gomap := (option (gmap string value)).

(** [m[k]]: the zero value of [interface{}] (nil) when [m] is nil or has no
    [k]. *)
Definition map_index (m : gomap) (k : string) : value :=
  match m with
  | Some m => default VNil (m !! k)
  | None => VNil
  end.

(** [reflect.DeepEqual] on values held in interfaces: same dynamic type, and
    then [==] on scalars, same length and deeply equal elements on slices,
    same length and deeply equal values under every key on maps. *)
Fixpoint deepValueEqual (v1 v2 : value) {struct v1} : bool :=
  match v1, v2 with
  | VNil, VNil => true
  | VBool x, VBool y => Bool.eqb x y
  | VFloat64 x, VFloat64 y => float64_eq x y
  | VString x, VString y => bool_decide (x = y)
  | VSlice l1, VSlice l2 =>
      (fix elems (l1 l2 : list value) {struct l1} : bool :=
         match l1, l2 with
         | [], [] => true
         | x :: l1, y :: l2 => deepValueEqual x y && elems l1 l2
         | _, _ => false
         end) l1 l2
  | VMap m1, VMap m2 =>
      (size m1 =? size m2)%nat
      && map_fold (fun k x acc =>
                     acc && match m2 !! k with
                            | Some y => deepValueEqual x y
                            | None => false
                            end) true m1
  | _, _ => false
  end.

(** [reflect.DeepEqual(a, b)] for two [map[string]interface{}]: both nil, or
    both non-nil and deeply equal. *)
Definition DeepEqual (a b : gomap) : bool :=
  match a, b with
  | None, None => true
  | Some m1, Some m2 => deepValueEqual (VMap m1) (VMap m2)
  | _, _ => false
  end.

(** ** Records *)

Record record : Type := { Entry : gomap; Items : list gomap }.

(** The loop of [record.add]: is some element of [items] deeply equal to
    [i]? *)
Fixpoint add_found (i : gomap) (items : list gomap) : bool :=
  match items with
  | [] => false
  | ii :: rest => if DeepEqual i ii then true else add_found i rest
  end.

(** [record.add]: add only adds if the item is not already present in
    [Items]. *)
Definition add (r : record) (i : gomap) : record :=
  if add_found i (Items r) then r
  else {| Entry := Entry r; Items := Items r ++ [i] |}.

(** ** The Trillian API the mapper uses *)

(** [trillian.LogLeaf], [trillian.MapLeaf] and the map requests and
    responses, with the fields the mapper reads or writes.  The [Leaf] of an
    inclusion is a pointer and may be nil. *)
Record LogLeaf : Type := { LogLeaf_LeafValue : bytes }.

Record MapLeaf : Type := { MapLeaf_Index : bytes; MapLeaf_LeafValue : bytes }.

Record MapLeafInclusion : Type := { Inclusion_Leaf : option MapLeaf }.

Record GetMapLeavesRequest : Type :=
  { Get_MapId : Z; Get_Index : list bytes }.

Record GetMapLeavesResponse : Type :=
  { Resp_MapLeafInclusion : list MapLeafInclusion }.

Record SetMapLeavesRequest : Type :=
  { Set_MapId : Z; Set_Leaves : list MapLeaf }.

(** [trillian.TrillianMapClient]: the two calls of the interface the mapper
    makes, over whatever state [St] the map behind the connection has. *)
Class TrillianMapClient (St : Type) : Type := {
  GetLeaves : GetMapLeavesRequest -> St -> result GetMapLeavesResponse * St;
  SetLeaves : SetMapLeavesRequest -> St -> result unit * St;
}.

(** A call made on the client. *)
Inductive rpc : Type :=
| CallGetLeaves (req : GetMapLeavesRequest)
| CallSetLeaves (req : SetMapLeavesRequest).

(** Is the call a store write? *)
Definition is_write (c : rpc) : bool :=
  match c with
  | CallSetLeaves _ => true
  | CallGetLeaves _ => false
  end.

(** ** Library functions *)

(** [time.Time] of a parsed timestamp: the instant, in nanoseconds since the
    epoch.  [Before] and [After] compare instants. *)
Definition time_Time := Z.

Definition Before (t u : time_Time) : bool := t <? u.
Definition After (t u : time_Time) : bool := u <? t.

(** The library functions the mapper calls:
    - [json.Unmarshal(b, &l)] with [l] a [map[string]interface{}],
    - [json.Unmarshal(b, &r)] with [r] a [record],
    - [json.Marshal(r)] of a [*record],
    - [time.Parse(time.RFC3339, s)],
    - [sha256.Sum256(b)]. *)
Class GoLibs : Type := {
  json_Unmarshal_map : bytes -> result gomap;
  json_Unmarshal_record : bytes -> result record;
  json_Marshal : record -> result bytes;
  time_Parse_RFC3339 : string -> result time_Time;
  sha256_Sum256 : bytes -> bytes;
}.

(** ** Running the program *)

(** A run-time panic of the Go runtime. *)
Inductive panic : Type :=
| TypeAssertion
| IndexOutOfRange
| NilDereference.

(** How a call ends: it returns, it panics, or [log.Fatalf] ends the
    process. *)
Inductive outcome (A : Type) : Type :=
| Done (a : A)
| Panicked (p : panic)
| Exited (msg : string).
Arguments Done {A} a.
Arguments Panicked {A} p.
Arguments Exited {A} msg.

(** The state a run threads: the state behind the map client, and the calls
    made on the client so far, oldest first. *)
Record world (St : Type) : Type := { backend : St; rpcs : list rpc }.
Arguments backend {St} w.
Arguments rpcs {St} w.

Definition M (St A : Type) : Type := world St -> outcome A * world St.

Definition ret {St A} (a : A) : M St A := fun w => (Done a, w).

Definition bind {St A B} (m : M St A) (k : A -> M St B) : M St B :=
  fun w =>
    match m w with
    | (Done a, w') => k a w'
    | (Panicked p, w') => (Panicked p, w')
    | (Exited msg, w') => (Exited msg, w')
    end.

Definition raise {St A} (p : panic) : M St A := fun w => (Panicked p, w).

(** [log.Fatalf] *)
Definition Fatalf {St A} (msg : string) : M St A := fun w => (Exited msg, w).

Declare Scope go_scope.
Delimit Scope go_scope with go.
Notation "x <- m ;; k" := (bind m (fun x => k))
  (at level 100, m at next level, right associativity) : go_scope.
#[local] Open Scope go_scope.

(** [v.(map[string]interface{})] and [v.(string)]: the unchecked type
    assertions panic on any other dynamic type, nil included. *)
Definition assert_map {St} (v : value) : M St (gmap string value) :=
  match v with
  | VMap m => ret m
  | _ => raise TypeAssertion
  end.

Definition assert_string {St} (v : value) : M St string :=
  match v with
  | VString s => ret s
  | _ => raise TypeAssertion
  end.

(** ** The mapper *)

(** [mapInfo]: the map identifier.  Its client [tc] is the instance of
    [TrillianMapClient] in scope, and [ctx] is [context.Background()], which
    carries nothing. *)
Record mapInfo : Type := { mapID : Z }.

Definition newInfo (mapID : Z) : mapInfo := {| mapID := mapID |}.

Record logScanner : Type := { info : mapInfo }.

Section Mapper.
Context {St : Type} {tc : TrillianMapClient St} {libs : GoLibs}.

(** [i.tc.GetLeaves(i.ctx, req)] and [i.tc.SetLeaves(i.ctx, &req)] *)
Definition call_GetLeaves (req : GetMapLeavesRequest)
  : M St (result GetMapLeavesResponse) :=
  fun w =>
    let (r, st) := GetLeaves req (backend w) in
    (Done r, {| backend := st; rpcs := rpcs w ++ [CallGetLeaves req] |}).

Definition call_SetLeaves (req : SetMapLeavesRequest) : M St (result unit) :=
  fun w =>
    let (r, st) := SetLeaves req (backend w) in
    (Done r, {| backend := st; rpcs := rpcs w ++ [CallSetLeaves req] |}).

Definition saveRecord (i : mapInfo) (key : string) (value : record)
  : M St unit :=
  match json_Marshal value with
  | Err err => Fatalf "Marshal() failed"
  | Ok v =>
      let hash := sha256_Sum256 (bytes_of key) in
      let l := {| MapLeaf_Index := hash; MapLeaf_LeafValue := v |} in
      let req := {| Set_MapId := mapID i; Set_Leaves := [l] |} in
      r <- call_SetLeaves req ;;
      match r with
      | Err err => Fatalf "SetLeaves() failed"
      | Ok _ => ret tt
      end
  end.

Definition createRecord (i : mapInfo) (key : string) (entry item : gomap)
  : M St unit :=
  let ii := [item] in
  saveRecord i key {| Entry := entry; Items := ii |}.

(** [getLeaf] returns [(nil, nil)] as [Ok None], [(nil, err)] as [Err err] and
    [(&r, nil)] as [Ok (Some r)]. *)
Definition getLeaf (i : mapInfo) (key : string)
  : M St (result (option record)) :=
  let hash := sha256_Sum256 (bytes_of key) in
  let index := [hash] in
  let req := {| Get_MapId := mapID i; Get_Index := index |} in
  resp <- call_GetLeaves req ;;
  match resp with
  | Err err => ret (Err err)
  | Ok resp =>
      match Resp_MapLeafInclusion resp with
      | [] => raise IndexOutOfRange
      | inc :: _ =>
          match Inclusion_Leaf inc with
          | None => raise NilDereference
          | Some leaf =>
              let l := MapLeaf_LeafValue leaf in
              if (length l =? 0)%nat then ret (Ok None)
              else
                match json_Unmarshal_record l with
                | Err err => ret (Err err)
                | Ok r => ret (Ok (Some r))
                end
          end
      end
  end.

Definition get (i : mapInfo) (key : string) : M St (result (option record)) :=
  r <- getLeaf i key ;;
  match r with
  | Err err => ret (Err err)
  | Ok None => ret (Ok None)
  | Ok (Some r) => ret (Ok (Some r))
  end.

(** [logScanner.Leaf]; the returned error is [None] for nil. *)
Definition Leaf (s : logScanner) (leaf : LogLeaf) : M St (option error) :=
  match json_Unmarshal_map (LogLeaf_LeafValue leaf) with
  | Err err => ret (Some err)
  | Ok l =>
      e <- assert_map (map_index l "Entry") ;;
      ts <- assert_string (map_index (Some e) "entry-timestamp") ;;
      match time_Parse_RFC3339 ts with
      | Err err => ret (Some err)
      | Ok t =>
          k <- assert_string (map_index (Some e) "key") ;;
          i <- assert_map (map_index l "Item") ;;
          cr <- get (info s) k ;;
          match cr with
          | Err err => ret (Some err)
          | Ok None =>
              _ <- createRecord (info s) k (Some e) (Some i) ;;
              ret None
          | Ok (Some cr) =>
              cts <- assert_string (map_index (Entry cr) "entry-timestamp") ;;
              match time_Parse_RFC3339 cts with
              | Err err => ret (Some err)
              | Ok ct =>
                  if Before t ct then ret None
                  else if After t ct then
                    _ <- createRecord (info s) k (Some e) (Some i) ;;
                    ret None
                  else
                    let cr := add cr (Some i) in
                    _ <- saveRecord (info s) k cr ;;
                    ret None
              end
          end
      end
  end.

(** Modelled from the spec: [trillian_client.Scan], the log client of the
    repository, is not among the sources.  It hands the leaves to the scanner
    strictly in log order, one at a time, and the first error a leaf returns
    ends the scan and is the scan's result. *)
Fixpoint Scan (s : logScanner) (leaves : list LogLeaf) : M St (option error) :=
  match leaves with
  | [] => ret None
  | leaf :: rest =>
      err <- Leaf s leaf ;;
      match err with
      | Some err => ret (Some err)
      | None => Scan s rest
      end
  end.

End Mapper.

(** ** The backing map *)

(** Modelled from the spec: the Trillian map server is an external service.
    It is a key-value store addressed by map identifier and index;
    [SetLeaves] upserts the index-value pairs of the request, [GetLeaves]
    returns one inclusion per requested index with the value bytes stored
    there, empty if the index was never written.  Neither call fails. *)
Abbreviation memmap := (gmap (Z * bytes) bytes).

Definition memmap_GetLeaves (req : GetMapLeavesRequest) (m : memmap)
  : result GetMapLeavesResponse * memmap :=
  (Ok {| Resp_MapLeafInclusion :=
           (fun idx =>
              {| Inclusion_Leaf :=
                   Some {| MapLeaf_Index := idx;
                           MapLeaf_LeafValue :=
                             default [] (m !! (Get_MapId req, idx)) |} |})
             <$> Get_Index req |}, m).

Definition memmap_SetLeaves (req : SetMapLeavesRequest) (m : memmap)
  : result unit * memmap :=
  (Ok tt,
   foldl (fun m l => <[(Set_MapId req, MapLeaf_Index l) := MapLeaf_LeafValue l]> m)
     m (Set_Leaves req)).

#[global] Instance memmap_client : TrillianMapClient memmap :=
  {| GetLeaves := memmap_GetLeaves; SetLeaves := memmap_SetLeaves |}.

(** A client whose [GetLeaves] answers without error and without any
    inclusion. *)
Definition no_inclusion_client : TrillianMapClient unit :=
  {| GetLeaves := fun _ st => (Ok {| Resp_MapLeafInclusion := [] |}, st);
     SetLeaves := fun _ st => (Ok tt, st) |}.

(** ** Vocabulary of the statements *)

Section Vocabulary.
Context {libs : GoLibs}.

(** The leaf decodes to the observation of key [k]: Entry [e] with timestamp
    [t], and Item [i]. *)
Definition observes (leaf : LogLeaf) (k : string) (e : gmap string value)
    (t : time_Time) (i : gmap string value) : Prop :=
  exists l ts,
    json_Unmarshal_map (LogLeaf_LeafValue leaf) = Ok l
    /\ map_index l "Entry" = VMap e
    /\ map_index (Some e) "entry-timestamp" = VString ts
    /\ time_Parse_RFC3339 ts = Ok t
    /\ map_index (Some e) "key" = VString k
    /\ map_index l "Item" = VMap i.

(** The Entry of record [r] carries the timestamp [t]. *)
Definition timestamp (r : record) (t : time_Time) : Prop :=
  exists ts,
    map_index (Entry r) "entry-timestamp" = VString ts
    /\ time_Parse_RFC3339 ts = Ok t.

(** The address of a key in the map: the map identifier and the hash of the
    key. *)
Definition address (i : mapInfo) (key : string) : Z * bytes :=
  (mapID i, sha256_Sum256 (bytes_of key)).

(** The read and the single-leaf write of a key. *)
Definition read_of (i : mapInfo) (key : string) : GetMapLeavesRequest :=
  {| Get_MapId := mapID i; Get_Index := [sha256_Sum256 (bytes_of key)] |}.

Definition write_of (i : mapInfo) (key : string) (v : bytes)
  : SetMapLeavesRequest :=
  {| Set_MapId := mapID i;
     Set_Leaves := [ {| MapLeaf_Index := sha256_Sum256 (bytes_of key);
                        MapLeaf_LeafValue := v |} ] |}.

(** The record a branch that is not the stale one computes from the observed
    Entry [e] at [t] with Item [i] and the current record, if any. *)
Inductive computes (e : gmap string value) (t : time_Time)
    (i : gmap string value) : option record -> record -> Prop :=
| computes_create :
    computes e t i None {| Entry := Some e; Items := [Some i] |}
| computes_replace cr ct :
    timestamp cr ct -> ct < t ->
    computes e t i (Some cr) {| Entry := Some e; Items := [Some i] |}
| computes_merge cr :
    timestamp cr t ->
    computes e t i (Some cr) (add cr (Some i)).

(** What is marshalled is read back as it was, and is never empty. *)
Definition json_roundtrip : Prop :=
  forall r v, json_Marshal r = Ok v -> json_Unmarshal_record v = Ok r /\ v <> [].

(** What [get] finds at address [a] of the in-memory map [m]. *)
Definition lookup_record (m : memmap) (a : Z * bytes)
  : result (option record) :=
  let l := default [] (m !! a) in
  if (length l =? 0)%nat then Ok None
  else
    match json_Unmarshal_record l with
    | Err err => Err err
    | Ok r => Ok (Some r)
    end.

(** The map [m] already accounts, at address [a], for an observation at [t]
    with Item [it]: the record stored there is newer, or has the same
    timestamp, holds an item deeply equal to [it] and is stored as it
    marshals. *)
Definition covered (m : memmap) (a : Z * bytes) (t : time_Time)
    (it : gmap string value) : Prop :=
  exists v r ct,
    m !! a = Some v /\ v <> [] /\ json_Unmarshal_record v = Ok r
    /\ timestamp r ct
    /\ (t < ct
        \/ (t = ct /\ add_found (Some it) (Items r) = true
            /\ json_Marshal r = Ok v)).

(** All of the observations, given by address, timestamp and item, are
    covered. *)
Definition all_covered (m : memmap)
    (obs : list (Z * bytes * time_Time * gmap string value)) : Prop :=
  Forall (fun o => covered m o.1.1 o.1.2 o.2) obs.

End Vocabulary.

(** The computation neither reads the trace of calls nor changes it other than
    by appending. *)
Definition trace_blind {St A} (m : M St A) : Prop :=
  forall st tr,
    m {| backend := st; rpcs := tr |}
    = let r := m {| backend := st; rpcs := [] |} in
      (r.1, {| backend := backend r.2; rpcs := tr ++ rpcs r.2 |}).

(** No two items of the sequence are deeply equal. *)
Definition pairwise_distinct (items : list gomap) : Prop :=
  forall p q a b,
    p <> q -> items !! p = Some a -> items !! q = Some b ->
    DeepEqual a b = false.

(** The calls of a trace that are store writes. *)
Definition writes (calls : list rpc) : list rpc := List.filter is_write calls.

(** The number of nodes of a value. *)
Fixpoint value_size (v : value) : nat :=
  match v with
  | VSlice l => S (foldr (fun x acc => value_size x + acc)%nat 0%nat l)
  | VMap m => S (map_fold (fun _ x acc => value_size x + acc)%nat 0%nat m)
  | _ => 1%nat
  end.

#[global] Instance float64_eq_dec : EqDecision float64.
Proof. solve_decision. Defined.

#[global] Instance value_eq_dec : EqDecision value.
Proof.
  refine (fix go (a b : value) : Decision (a = b) :=
    let _ : EqDecision value := @go in
    match a, b with
    | VNil, VNil => left _
    | VBool x, VBool y => cast_if (decide (x = y))
    | VFloat64 x, VFloat64 y => cast_if (decide (x = y))
    | VString x, VString y => cast_if (decide (x = y))
    | VSlice x, VSlice y => cast_if (decide (x = y))
    | VMap x, VMap y => cast_if (decide (x = y))
    | _, _ => right _
    end); abstract congruence.
Defined.

#[global] Instance record_eq_dec : EqDecision record.
Proof. solve_decision. Defined.

(** ** A worked example

    The log of the end-to-end example: four leaves for key [k1], at 2020 with
    item [{v: 1}], at 2020 with [{v: 2}], at 2019 with [{v: 99}] and at 2021
    with [{v: 3}]; and leaves that do not decode.  The library functions are
    given by tables over the payloads, timestamps and records of the
    example. *)
Module Fixture.

Definition ts2019 : string := "2019-01-01T00:00:00Z".
Definition ts2020 : string := "2020-01-01T00:00:00Z".
Definition ts2021 : string := "2021-01-01T00:00:00Z".

Definition parse (s : string) : result time_Time :=
  if decide (s = ts2019) then Ok 1546300800000000000
  else if decide (s = ts2020) then Ok 1577836800000000000
  else if decide (s = ts2021) then Ok 1609459200000000000
  else Err "parsing time: cannot parse".

(** The positive [float64] with the given exponent and fraction bits. *)
Definition number (mag : N) : value :=
  VFloat64 {| f_neg := false; f_mag := mag |}.

Definition entry (ts : string) : gmap string value :=
  {[ "key" := VString "k1"; "entry-timestamp" := VString ts ]}.

Definition item (x : value) : gmap string value := {[ "v" := x ]}.

Definition item1 := item (number 0x3FF0000000000000).
Definition item2 := item (number 0x4000000000000000).
Definition item3 := item (number 0x4008000000000000).
Definition item99 := item (number 0x4058C00000000000).

Definition payload (e i : gmap string value) : gomap :=
  Some {[ "Entry" := VMap e; "Item" := VMap i ]}.

Definition leaf (name : string) : LogLeaf :=
  {| LogLeaf_LeafValue := bytes_of name |}.

Definition leaf1 := leaf "leaf1".
Definition leaf2 := leaf "leaf2".
Definition leaf3 := leaf "leaf3".
Definition leaf4 := leaf "leaf4".
Definition leaf_no_key := leaf "no key".
Definition leaf_no_timestamp := leaf "no timestamp".
Definition leaf_bad_timestamp := leaf "bad timestamp".
Definition leaf_malformed := leaf "{".

Definition payloads : list (bytes * gomap) :=
  [ (bytes_of "leaf1", payload (entry ts2020) item1);
    (bytes_of "leaf2", payload (entry ts2020) item2);
    (bytes_of "leaf3", payload (entry ts2019) item99);
    (bytes_of "leaf4", payload (entry ts2021) item3);
    (bytes_of "no key",
      payload {[ "entry-timestamp" := VString ts2020 ]} item1);
    (bytes_of "no timestamp", payload {[ "key" := VString "k1" ]} item1);
    (bytes_of "bad timestamp",
      payload {[ "key" := VString "k1";
                 "entry-timestamp" := VString "yesterday" ]} item1) ].

Definition unmarshal_map (b : bytes) : result gomap :=
  match List.find (fun p => bool_decide (p.1 = b)) payloads with
  | Some p => Ok p.2
  | None => Err "unexpected end of JSON input"
  end.

Definition record1 : record :=
  {| Entry := Some (entry ts2020); Items := [Some item1] |}.
Definition record12 : record :=
  {| Entry := Some (entry ts2020); Items := [Some item1; Some item2] |}.
Definition record3 : record :=
  {| Entry := Some (entry ts2021); Items := [Some item3] |}.

Definition marshal (r : record) : result bytes :=
  if decide (r = record1) then Ok (bytes_of "record1")
  else if decide (r = record12) then Ok (bytes_of "record12")
  else if decide (r = record3) then Ok (bytes_of "record3")
  else Err "json: unsupported value".

Definition unmarshal_record (b : bytes) : result record :=
  if decide (b = bytes_of "record1") then Ok record1
  else if decide (b = bytes_of "record12") then Ok record12
  else if decide (b = bytes_of "record3") then Ok record3
  else Err "unexpected end of JSON input".

(** Any function can stand for the hash; here the key bytes themselves. *)
Definition libs : GoLibs :=
  {| json_Unmarshal_map := unmarshal_map;
     json_Unmarshal_record := unmarshal_record;
     json_Marshal := marshal;
     time_Parse_RFC3339 := parse;
     sha256_Sum256 := fun b => b |}.

Definition scanner : logScanner := {| info := newInfo 7 |}.

(** The empty map, no call made yet. *)
Definition start : world memmap := {| backend := ∅; rpcs := [] |}.

(** The map in which [v] is stored for key [k1]. *)
Definition stored (v : bytes) : world memmap :=
  {| backend := {[ (7, bytes_of "k1") := v ]}; rpcs := [] |}.

End Fixture.

(** ** Payloads and stored values at the edges

    The tables of the worked example, with a payload that is the JSON
    [null], a payload with an Entry and no Item, a payload whose Entry has
    no [key] and a timestamp that does not parse, a stored [{}], which
    unmarshals to the zero record, and a stored record whose timestamp does
    not parse. *)
Module Edge.

Definition unmarshal_map (b : bytes) : result gomap :=
  if decide (b = bytes_of "null") then Ok None
  else if decide (b = bytes_of "no item") then
    Ok (Some {[ "Entry" := VMap (Fixture.entry Fixture.ts2020) ]})
  else if decide (b = bytes_of "no key, bad timestamp") then
    Ok (Fixture.payload {[ "entry-timestamp" := VString "yesterday" ]}
          Fixture.item1)
  else Fixture.unmarshal_map b.

Definition undated : record :=
  {| Entry := Some {[ "key" := VString "k1";
                      "entry-timestamp" := VString "yesterday" ]};
     Items := [] |}.

Definition unmarshal_record (b : bytes) : result record :=
  if decide (b = bytes_of "{}") then Ok {| Entry := None; Items := [] |}
  else if decide (b = bytes_of "undated") then Ok undated
  else Fixture.unmarshal_record b.

Definition libs : GoLibs :=
  {| json_Unmarshal_map := unmarshal_map;
     json_Unmarshal_record := unmarshal_record;
     json_Marshal := Fixture.marshal;
     time_Parse_RFC3339 := Fixture.parse;
     sha256_Sum256 := fun b => b |}.

Definition leaf_null := Fixture.leaf "null".
Definition leaf_no_item := Fixture.leaf "no item".
Definition leaf_no_key_bad_timestamp :=
  Fixture.leaf "no key, bad timestamp".

End Edge.

(** A client whose [GetLeaves] gives the same answer to every request, and
    whose [SetLeaves] gives the same answer to every request. *)
Definition canned_client (read : result GetMapLeavesResponse)
    (write : result unit) : TrillianMapClient unit :=
  {| GetLeaves := fun _ st => (read, st);
     SetLeaves := fun _ st => (write, st) |}.

Example scan_end_to_end :
  let r := @Scan _ memmap_client Fixture.libs Fixture.scanner
             [Fixture.leaf1; Fixture.leaf2; Fixture.leaf3; Fixture.leaf4]
             Fixture.start in
  r.1 = Done None
  /\ backend r.2 !! (7, bytes_of "k1") = Some (bytes_of "record3")
  /\ length (writes (rpcs r.2)) = 3%nat.
Proof. cbv zeta. split; [|split]; vm_compute; reflexivity. Qed.

(** * Facts *)

(** ** Deep equality *)

Lemma float64_eq_refl f : float64_eq f f = true.
Proof.
  unfold float64_eq. rewrite Bool.eqb_reflx, N.eqb_refl. apply orb_true_r.
Qed.

Lemma float64_eq_sym f g : float64_eq f g = float64_eq g f.
Proof.
  unfold float64_eq.
  rewrite (andb_comm (f_mag f =? 0)%N), (N.eqb_sym (f_mag f) (f_mag g)).
  by destruct (f_neg f), (f_neg g).
Qed.

Lemma value_size_elem x l :
  x ∈ l -> (value_size x < value_size (VSlice l))%nat.
Proof.
  simpl. induction 1 as [x l|x y l _ IH]; simpl; lia.
Qed.

Lemma value_size_lookup (m : gmap string value) k x :
  m !! k = Some x -> (value_size x < value_size (VMap m))%nat.
Proof.
  simpl. rewrite map_fold_foldr, <- elem_of_map_to_list.
  generalize (map_to_list m). intros l Hin.
  induction l as [|[k' x'] l IH]; [by apply elem_of_nil in Hin|].
  apply elem_of_cons in Hin as [[= <- <-]|Hin]; simpl; [lia|].
  specialize (IH Hin). lia.
Qed.

(** Induction on values, through slices and maps. *)
Lemma value_ind (P : value -> Prop) :
  P VNil ->
  (forall b, P (VBool b)) ->
  (forall f, P (VFloat64 f)) ->
  (forall s, P (VString s)) ->
  (forall l, Forall P l -> P (VSlice l)) ->
  (forall m : gmap string value, map_Forall (fun _ => P) m -> P (VMap m)) ->
  forall v, P v.
Proof.
  intros Hnil Hbool Hfloat Hstring Hslice Hmap v.
  remember (value_size v) as n eqn:Hn. revert v Hn.
  induction (lt_wf n) as [n _ IH]. intros v ->.
  destruct v as [|b|f|s|l|m]; auto.
  - apply Hslice, Forall_forall. intros x Hx.
    eapply IH; [|reflexivity]. by apply value_size_elem.
  - apply Hmap. intros k x Hx.
    eapply IH; [|reflexivity]. by eapply value_size_lookup.
Qed.

Lemma deepValueEqual_slice l1 l2 :
  deepValueEqual (VSlice l1) (VSlice l2) = true
  <-> Forall2 (fun x y => deepValueEqual x y = true) l1 l2.
Proof.
  revert l2. induction l1 as [|x l1 IH]; intros [|y l2]; simpl.
  - split; [constructor|done].
  - split; [done|inversion 1].
  - split; [done|inversion 1].
  - rewrite andb_true_iff. specialize (IH l2). simpl in IH. rewrite IH.
    split; [intros []; by constructor|by inversion 1].
Qed.

Lemma map_fold_andb {A} (f : string -> A -> bool) (m : gmap string A) :
  map_fold (fun k x acc => acc && f k x) true m = true
  <-> map_Forall (fun k x => f k x = true) m.
Proof.
  rewrite map_fold_foldr, map_Forall_to_list.
  induction (map_to_list m) as [|[k x] l IH]; simpl.
  - split; [constructor|done].
  - rewrite andb_true_iff, IH, Forall_cons. simpl. tauto.
Qed.

Lemma deepValueEqual_map (m1 m2 : gmap string value) :
  deepValueEqual (VMap m1) (VMap m2) = true
  <-> size m1 = size m2
      /\ forall k x, m1 !! k = Some x ->
           exists y, m2 !! k = Some y /\ deepValueEqual x y = true.
Proof.
  simpl. rewrite andb_true_iff, Nat.eqb_eq, map_fold_andb.
  unfold map_Forall. split; intros [Hsize H]; split; try done; intros k x Hx.
  - specialize (H k x Hx). destruct (m2 !! k); [eauto|done].
  - destruct (H k x Hx) as (y & -> & ?). done.
Qed.

Lemma deepValueEqual_refl v : deepValueEqual v v = true.
Proof.
  induction v as [|b|f|s|l IH|m IH] using value_ind.
  - done.
  - simpl. by destruct b.
  - apply float64_eq_refl.
  - simpl. by apply bool_decide_eq_true.
  - apply deepValueEqual_slice. induction IH; by constructor.
  - apply deepValueEqual_map. split; [done|]. intros k x Hx.
    exists x. split; [done|]. by apply (IH k).
Qed.

Lemma deepValueEqual_sym_1 v1 v2 :
  deepValueEqual v1 v2 = true -> deepValueEqual v2 v1 = true.
Proof.
  revert v2.
  induction v1 as [|b|f|s|l IH|m IH] using value_ind;
    intros [|b2|f2|s2|l2|m2]; try done.
  - simpl. by destruct b, b2.
  - simpl. by rewrite float64_eq_sym.
  - simpl. rewrite !bool_decide_eq_true. done.
  - rewrite !deepValueEqual_slice. intros H.
    induction H as [|x y l l2 Hxy _ IH2]; [constructor|].
    inversion_clear IH. constructor; auto.
  - rewrite !deepValueEqual_map. intros [Hsize H]. split; [done|].
    assert (dom m = dom m2) as Hdom.
    { apply set_subseteq_size_eq.
      - intros k [x Hx]%elem_of_dom. destruct (H k x Hx) as (y & Hy & _).
        apply elem_of_dom. eauto.
      - rewrite !size_dom. lia. }
    intros k y Hy.
    assert (k ∈ dom m) as [x Hx]%elem_of_dom.
    { rewrite Hdom. apply elem_of_dom. eauto. }
    destruct (H k x Hx) as (y' & Hy' & Hxy).
    exists x. split; [done|]. apply (IH k x Hx). congruence.
Qed.

Lemma deepValueEqual_sym v1 v2 : deepValueEqual v1 v2 = deepValueEqual v2 v1.
Proof.
  destruct (deepValueEqual v1 v2) eqn:H12, (deepValueEqual v2 v1) eqn:H21;
    try done.
  - apply deepValueEqual_sym_1 in H12. congruence.
  - apply deepValueEqual_sym_1 in H21. congruence.
Qed.

Lemma DeepEqual_refl a : DeepEqual a a = true.
Proof. destruct a; [apply deepValueEqual_refl|done]. Qed.

Lemma DeepEqual_sym a b : DeepEqual a b = DeepEqual b a.
Proof. destruct a, b; try done. apply deepValueEqual_sym. Qed.

(** ** [record.add] *)

Lemma add_found_spec i items :
  add_found i items = true
  <-> exists ii, ii ∈ items /\ DeepEqual i ii = true.
Proof.
  induction items as [|x items IH]; simpl.
  - split; [done|]. intros (ii & Hin & _). by apply elem_of_nil in Hin.
  - destruct (DeepEqual i x) eqn:Hx.
    + split; [|done]. intros _. exists x. split; [left|done].
    + rewrite IH. split; intros (ii & Hin & Hii).
      * exists ii. split; [by right|done].
      * apply elem_of_cons in Hin as [->|Hin]; [congruence|eauto].
Qed.

Lemma add_found_app i items items' :
  add_found i (items ++ items') = add_found i items || add_found i items'.
Proof.
  induction items as [|x items IH]; simpl; [done|].
  by destruct (DeepEqual i x).
Qed.

Lemma add_Entry r i : Entry (add r i) = Entry r.
Proof. unfold add. by destruct (add_found i (Items r)). Qed.

Lemma add_Items r i :
  Items (add r i)
  = if add_found i (Items r) then Items r else Items r ++ [i].
Proof. unfold add. by destruct (add_found i (Items r)). Qed.

Lemma add_present r i : add_found i (Items r) = true -> add r i = r.
Proof. unfold add. by intros ->. Qed.

(** Once found, always found: [add] never removes an item. *)
Lemma add_found_add_mono r i x :
  add_found x (Items r) = true -> add_found x (Items (add r i)) = true.
Proof.
  intros H. rewrite add_Items. destruct (add_found i (Items r)); [done|].
  by rewrite add_found_app, H.
Qed.

(** The item just added is found. *)
Lemma add_found_add r i : add_found i (Items (add r i)) = true.
Proof.
  rewrite add_Items. destruct (add_found i (Items r)) eqn:H; [done|].
  rewrite add_found_app, H. simpl. by rewrite DeepEqual_refl.
Qed.

Lemma pairwise_distinct_singleton i : pairwise_distinct [i].
Proof.
  intros p q a b Hpq Hp Hq.
  apply lookup_lt_Some in Hp, Hq. simpl in *. lia.
Qed.

Lemma pairwise_distinct_snoc items i :
  pairwise_distinct items -> add_found i items = false ->
  pairwise_distinct (items ++ [i]).
Proof.
  intros Hd Hnot p q a b Hpq Hp Hq.
  assert (forall ii, ii ∈ items -> DeepEqual i ii = false) as Hi.
  { intros ii Hin. destruct (DeepEqual i ii) eqn:E; [|done].
    rewrite <- Hnot. symmetry. apply add_found_spec. eauto. }
  apply lookup_snoc_Some in Hp as [[Hlp Hp]|[-> <-]];
    apply lookup_snoc_Some in Hq as [[Hlq Hq]|[-> <-]].
  - by apply (Hd p q).
  - rewrite DeepEqual_sym. apply Hi. by eapply list_elem_of_lookup_2.
  - apply Hi. by eapply list_elem_of_lookup_2.
  - done.
Qed.

(** ** One leaf, on any client *)

Section MapperFacts.
Context {St : Type} {tc : TrillianMapClient St} {libs : GoLibs}.
Implicit Types (w : world St) (s : logScanner) (i : mapInfo).

(** The world after the call [req] answered from backend state [st]. *)
Lemma call_SetLeaves_eq req w :
  call_SetLeaves req w
  = (Done (SetLeaves req (backend w)).1,
     {| backend := (SetLeaves req (backend w)).2;
        rpcs := rpcs w ++ [CallSetLeaves req] |}).
Proof. unfold call_SetLeaves. by destruct (SetLeaves req (backend w)). Qed.

Lemma call_GetLeaves_eq req w :
  call_GetLeaves req w
  = (Done (GetLeaves req (backend w)).1,
     {| backend := (GetLeaves req (backend w)).2;
        rpcs := rpcs w ++ [CallGetLeaves req] |}).
Proof. unfold call_GetLeaves. by destruct (GetLeaves req (backend w)). Qed.

(** [saveRecord] of a record that marshals: one [SetLeaves] call; the process
    exits if the call fails. *)
Lemma saveRecord_eq i key r v w :
  json_Marshal r = Ok v ->
  saveRecord i key r w
  = (match (SetLeaves (write_of i key v) (backend w)).1 with
     | Ok _ => Done tt
     | Err _ => Exited "SetLeaves() failed"
     end,
     {| backend := (SetLeaves (write_of i key v) (backend w)).2;
        rpcs := rpcs w ++ [CallSetLeaves (write_of i key v)] |}).
Proof.
  intros Hv. unfold saveRecord, bind. rewrite Hv, call_SetLeaves_eq.
  fold (write_of i key v). by destruct (SetLeaves _ _).1.
Qed.

(** [saveRecord] of a record that does not marshal: the process exits and no
    call is made. *)
Lemma saveRecord_unmarshalable i key r err w :
  json_Marshal r = Err err ->
  saveRecord i key r w = (Exited "Marshal() failed", w).
Proof. intros Hv. unfold saveRecord. by rewrite Hv. Qed.

(** [get] makes one [GetLeaves] call and nothing else. *)
Lemma get_world i key w :
  (get i key w).2
  = {| backend := (GetLeaves (read_of i key) (backend w)).2;
       rpcs := rpcs w ++ [CallGetLeaves (read_of i key)] |}.
Proof.
  unfold get, getLeaf, bind. rewrite call_GetLeaves_eq.
  fold (read_of i key).
  destruct (GetLeaves _ _).1 as [[[|[[leaf|]] ?]]|]; simpl; try done.
  destruct (length _ =? 0)%nat; simpl; [done|].
  by destruct (json_Unmarshal_record _).
Qed.

(** The leaf of an observation goes on to read the record of the key and
    reconcile. *)
Lemma Leaf_observed s leaf k e t it :
  observes leaf k e t it ->
  Leaf s leaf
  = (cr <- get (info s) k ;;
     match cr with
     | Err err => ret (Some err)
     | Ok None =>
         _ <- createRecord (info s) k (Some e) (Some it) ;;
         ret None
     | Ok (Some cr) =>
         cts <- assert_string (map_index (Entry cr) "entry-timestamp") ;;
         match time_Parse_RFC3339 cts with
         | Err err => ret (Some err)
         | Ok ct =>
             if Before t ct then ret None
             else if After t ct then
               _ <- createRecord (info s) k (Some e) (Some it) ;;
               ret None
             else
               let cr := add cr (Some it) in
               _ <- saveRecord (info s) k cr ;;
               ret None
         end
     end)%go.
Proof.
  intros (l & ts & Hl & He & Hts & Ht & Hk & Hit).
  unfold Leaf. rewrite Hl, He. simpl assert_map at 1.
  unfold bind at 1, ret at 1. rewrite Hts. simpl assert_string at 1.
  unfold bind at 1, ret at 1. rewrite Ht, Hk. simpl assert_string at 1.
  unfold bind at 1, ret at 1. rewrite Hit. simpl assert_map at 1.
  reflexivity.
Qed.

(** A leaf that returns nil is the leaf of an observation. *)
Lemma Leaf_nil_observes s leaf w w' :
  Leaf s leaf w = (Done None, w') -> exists k e t it, observes leaf k e t it.
Proof.
  unfold Leaf, observes.
  destruct (json_Unmarshal_map _) as [l|] eqn:Hl; [|done].
  destruct (map_index l "Entry") as [| | | | |e] eqn:He; try done.
  simpl assert_map at 1. unfold bind at 1, ret at 1.
  destruct (map_index (Some e) "entry-timestamp")
    as [| | |ts| |] eqn:Hts; try done.
  simpl assert_string at 1. unfold bind at 1, ret at 1.
  destruct (time_Parse_RFC3339 ts) as [t|] eqn:Ht; [|done].
  destruct (map_index (Some e) "key") as [| | |k| |] eqn:Hk; try done.
  simpl assert_string at 1. unfold bind at 1, ret at 1.
  destruct (map_index l "Item") as [| | | | |it] eqn:Hit; try done.
  intros _. exists k, e, t, it, l, ts. done.
Qed.

(** The timestamp of a record is unique. *)
Lemma timestamp_inj r t t' : timestamp r t -> timestamp r t' -> t = t'.
Proof. intros (ts & H1 & H2) (ts' & H1' & H2'). congruence. Qed.

(** The branches that are not the stale one: the computed record is written
    by one [SetLeaves] call after the read, and [Leaf] returns nil if the
    call succeeds. *)
Lemma Leaf_put s leaf k e t it cur r v w w1 :
  observes leaf k e t it ->
  get (info s) k w = (Done (Ok cur), w1) ->
  computes e t it cur r ->
  json_Marshal r = Ok v ->
  Leaf s leaf w
  = (match (SetLeaves (write_of (info s) k v) (backend w1)).1 with
     | Ok _ => Done None
     | Err _ => Exited "SetLeaves() failed"
     end,
     {| backend := (SetLeaves (write_of (info s) k v) (backend w1)).2;
        rpcs := rpcs w1 ++ [CallSetLeaves (write_of (info s) k v)] |}).
Proof.
  intros Hobs Hget Hc Hv. rewrite (Leaf_observed _ _ _ _ _ _ Hobs).
  unfold bind at 1. rewrite Hget.
  assert (forall r', r' = r ->
    (_ <- saveRecord (info s) k r' ;; ret None)%go w1
    = (match (SetLeaves (write_of (info s) k v) (backend w1)).1 with
       | Ok _ => Done (None : option error)
       | Err _ => Exited "SetLeaves() failed"
       end,
       {| backend := (SetLeaves (write_of (info s) k v) (backend w1)).2;
          rpcs := rpcs w1 ++ [CallSetLeaves (write_of (info s) k v)] |}))
    as Hsave.
  { intros r' ->. unfold bind. rewrite (saveRecord_eq _ _ _ _ _ Hv).
    by destruct (SetLeaves _ _).1. }
  destruct Hc as [|cr ct (cts & Hcts & Hct) Hlt|cr (cts & Hcts & Hct)].
  - by apply Hsave.
  - rewrite Hcts. simpl assert_string. unfold bind at 1, ret at 1.
    rewrite Hct. unfold Before, After.
    destruct (Z.ltb_spec t ct); [lia|]. destruct (Z.ltb_spec ct t); [|lia].
    by apply Hsave.
  - rewrite Hcts. simpl assert_string. unfold bind at 1, ret at 1.
    rewrite Hct. unfold Before, After. rewrite Z.ltb_irrefl.
    by apply Hsave.
Qed.

(** The stale branch: nothing beyond the read. *)
Lemma Leaf_skip s leaf k e t it cr ct w w1 :
  observes leaf k e t it ->
  get (info s) k w = (Done (Ok (Some cr)), w1) ->
  timestamp cr ct -> t < ct ->
  Leaf s leaf w = (Done None, w1).
Proof.
  intros Hobs Hget (cts & Hcts & Hct) Hlt.
  rewrite (Leaf_observed _ _ _ _ _ _ Hobs).
  unfold bind at 1. rewrite Hget, Hcts. simpl assert_string.
  unfold bind at 1, ret at 1. rewrite Hct. unfold Before.
  by destruct (Z.ltb_spec t ct); [|lia].
Qed.

(** A scan goes on after a leaf that returns nil, and ends at the first leaf
    that does not. *)
Lemma Scan_cons_nil s leaf rest w :
  (Leaf s leaf w).1 = Done None ->
  Scan s (leaf :: rest) w = Scan s rest (Leaf s leaf w).2.
Proof.
  simpl. unfold bind. by destruct (Leaf s leaf w) as [o w']; simpl; intros ->.
Qed.

Lemma Scan_cons_abort s leaf rest w :
  (Leaf s leaf w).1 <> Done None ->
  (Scan s (leaf :: rest) w).2 = (Leaf s leaf w).2
  /\ (Scan s (leaf :: rest) w).1 <> Done None.
Proof.
  simpl. unfold bind.
  by destruct (Leaf s leaf w) as [[[err|]|p|msg] w'].
Qed.

End MapperFacts.

(** ** The trace of calls is only appended to *)

Section TraceBlind.
Context {St : Type} {tc : TrillianMapClient St} {libs : GoLibs}.

Lemma trace_blind_ret {A} (a : A) : trace_blind (ret a : M St A).
Proof. intros st tr. simpl. by rewrite app_nil_r. Qed.

Lemma trace_blind_raise {A} p : trace_blind (raise p : M St A).
Proof. intros st tr. simpl. by rewrite app_nil_r. Qed.

Lemma trace_blind_Fatalf {A} msg : trace_blind (Fatalf msg : M St A).
Proof. intros st tr. simpl. by rewrite app_nil_r. Qed.

Lemma trace_blind_bind {A B} (m : M St A) (k : A -> M St B) :
  trace_blind m -> (forall a, trace_blind (k a)) -> trace_blind (bind m k).
Proof.
  intros Hm Hk st tr. unfold bind. rewrite (Hm st tr).
  destruct (m {| backend := st; rpcs := [] |}) as [[a|p|msg] [st' tr']];
    simpl; try done.
  rewrite (Hk a st' (tr ++ tr')), (Hk a st' tr'). simpl.
  by rewrite app_assoc.
Qed.

Lemma trace_blind_call_GetLeaves req : trace_blind (call_GetLeaves req).
Proof. intros st tr. by rewrite !call_GetLeaves_eq. Qed.

Lemma trace_blind_call_SetLeaves req : trace_blind (call_SetLeaves req).
Proof. intros st tr. by rewrite !call_SetLeaves_eq. Qed.

Lemma trace_blind_assert_map v : trace_blind (assert_map v : M St _).
Proof.
  destruct v; first [apply trace_blind_ret|apply trace_blind_raise].
Qed.

Lemma trace_blind_assert_string v : trace_blind (assert_string v : M St _).
Proof.
  destruct v; first [apply trace_blind_ret|apply trace_blind_raise].
Qed.

Create HintDb blind.

#[local] Hint Resolve trace_blind_ret trace_blind_raise trace_blind_Fatalf
  trace_blind_call_GetLeaves trace_blind_call_SetLeaves
  trace_blind_assert_map trace_blind_assert_string : blind.

Ltac blind :=
  repeat first
    [ solve [auto with blind]
    | apply trace_blind_bind; [|intros ?]
    | match goal with
      | |- trace_blind (match ?x with _ => _ end) => destruct x
      | |- trace_blind (if ?x then _ else _) => destruct x
      end ].

Lemma trace_blind_saveRecord i key r : trace_blind (saveRecord i key r).
Proof. unfold saveRecord. blind. Qed.

Lemma trace_blind_createRecord i key e it :
  trace_blind (createRecord i key e it).
Proof. apply trace_blind_saveRecord. Qed.

Lemma trace_blind_get i key : trace_blind (get i key).
Proof. unfold get, getLeaf. blind. Qed.

#[local] Hint Resolve trace_blind_saveRecord trace_blind_createRecord
  trace_blind_get : blind.

Lemma trace_blind_Leaf s leaf : trace_blind (Leaf s leaf).
Proof. unfold Leaf. blind. Qed.

End TraceBlind.

(** ** One leaf, on the in-memory map *)

Section MemMapFacts.
Context {libs : GoLibs}.
Implicit Types (w : world memmap) (m : memmap) (s : logScanner).

Lemma memmap_get i key w :
  get i key w
  = (Done (lookup_record (backend w) (address i key)),
     {| backend := backend w;
        rpcs := rpcs w ++ [CallGetLeaves (read_of i key)] |}).
Proof.
  unfold get, getLeaf, bind. rewrite call_GetLeaves_eq.
  unfold lookup_record, address. simpl.
  destruct (length _ =? 0)%nat; [done|].
  by destruct (json_Unmarshal_record _).
Qed.

Lemma memmap_saveRecord i key r v w :
  json_Marshal r = Ok v ->
  saveRecord i key r w
  = (Done tt,
     {| backend := <[address i key := v]> (backend w);
        rpcs := rpcs w ++ [CallSetLeaves (write_of i key v)] |}).
Proof. intros Hv. by rewrite (saveRecord_eq _ _ _ _ _ Hv). Qed.

(** What is stored at an address where [get] finds a record. *)
Lemma lookup_record_Some m a r :
  lookup_record m a = Ok (Some r) ->
  exists v, m !! a = Some v /\ v <> [] /\ json_Unmarshal_record v = Ok r.
Proof.
  unfold lookup_record. destruct (m !! a) as [v|]; simpl; [|done].
  destruct v as [|b v]; simpl; [done|].
  destruct (json_Unmarshal_record (b :: v)) as [r'|] eqn:Hr; [|done].
  intros [= ->]. by exists (b :: v).
Qed.

Lemma lookup_record_stored m a v r :
  m !! a = Some v -> v <> [] -> json_Unmarshal_record v = Ok r ->
  lookup_record m a = Ok (Some r).
Proof.
  intros Hv Hne Hr. unfold lookup_record. rewrite Hv. simpl.
  destruct v; [done|]. simpl. by rewrite Hr.
Qed.

(** A leaf that does not return nil leaves the map as it was. *)
Lemma memmap_Leaf_abort s leaf w :
  (Leaf s leaf w).1 <> Done None -> backend (Leaf s leaf w).2 = backend w.
Proof.
  destruct (Leaf s leaf w) as [o w'] eqn:HL. simpl. intros Ho.
  unfold Leaf in HL.
  destruct (json_Unmarshal_map _) as [l|]; [|by inversion HL].
  destruct (map_index l "Entry") as [| | | | |e]; try by inversion HL.
  simpl assert_map in HL at 1. unfold bind at 1, ret at 1 in HL.
  destruct (map_index (Some e) "entry-timestamp")
    as [| | |ts| |]; try by inversion HL.
  simpl assert_string in HL at 1. unfold bind at 1, ret at 1 in HL.
  destruct (time_Parse_RFC3339 ts) as [t|]; [|by inversion HL].
  destruct (map_index (Some e) "key") as [| | |k| |]; try by inversion HL.
  simpl assert_string in HL at 1. unfold bind at 1, ret at 1 in HL.
  destruct (map_index l "Item") as [| | | | |it]; try by inversion HL.
  simpl assert_map in HL at 1. unfold bind at 1, ret at 1 in HL.
  unfold bind at 1 in HL. rewrite memmap_get in HL.
  assert (forall r w1, backend w1 = backend w ->
            (_ <- saveRecord (info s) k r ;; ret None)%go w1 = (o, w') ->
            backend w' = backend w) as Hsave.
  { intros r w1 Hw1. unfold bind.
    destruct (json_Marshal r) as [v|] eqn:Hv.
    - rewrite (memmap_saveRecord _ _ _ _ _ Hv). intros [= <- <-]. done.
    - rewrite (saveRecord_unmarshalable _ _ _ _ _ Hv).
      intros [= <- <-]. done. }
  destruct (lookup_record _ _) as [[cr|]|]; [| |by inversion HL].
  - destruct (map_index (Entry cr) "entry-timestamp")
      as [| | |cts| |]; try by inversion HL.
    simpl assert_string in HL. unfold bind at 1, ret at 1 in HL.
    destruct (time_Parse_RFC3339 cts) as [ct|]; [|by inversion HL].
    destruct (Before t ct); [by inversion HL|].
    unfold createRecord in HL.
    destruct (After t ct); exact (Hsave _ (Build_world _ _ _) eq_refl HL).
  - unfold createRecord in HL.
    exact (Hsave _ (Build_world _ _ _) eq_refl HL).
Qed.

Lemma observes_timestamp leaf k e t it items :
  observes leaf k e t it -> timestamp {| Entry := Some e; Items := items |} t.
Proof. intros (l & ts & _ & _ & Hts & Ht & _). by exists ts. Qed.

Lemma computes_timestamp leaf k e t it cur r :
  observes leaf k e t it -> computes e t it cur r -> timestamp r t.
Proof.
  intros Hobs [|cr ct _ _|cr Hcr]; try by eapply observes_timestamp.
  destruct Hcr as (ts & Hts & Ht). exists ts. by rewrite add_Entry.
Qed.

(** The three ways the leaf of an observation ends on the in-memory map: it
    does not return nil; it skips; it stores the record it computes. *)
Lemma memmap_Leaf_cases s leaf k e t it w :
  observes leaf k e t it ->
  (Leaf s leaf w).1 <> Done None
  \/ (exists cr ct,
        lookup_record (backend w) (address (info s) k) = Ok (Some cr)
        /\ timestamp cr ct /\ t < ct
        /\ Leaf s leaf w
           = (Done None,
              {| backend := backend w;
                 rpcs := rpcs w ++ [CallGetLeaves (read_of (info s) k)] |}))
  \/ (exists cur r v,
        lookup_record (backend w) (address (info s) k) = Ok cur
        /\ computes e t it cur r /\ json_Marshal r = Ok v
        /\ Leaf s leaf w
           = (Done None,
              {| backend := <[address (info s) k := v]> (backend w);
                 rpcs := (rpcs w ++ [CallGetLeaves (read_of (info s) k)])
                         ++ [CallSetLeaves (write_of (info s) k v)] |})).
Proof.
  intros Hobs.
  assert (forall cur r,
    lookup_record (backend w) (address (info s) k) = Ok cur ->
    computes e t it cur r ->
    (Leaf s leaf w).1 <> Done None
    \/ exists v, json_Marshal r = Ok v
         /\ Leaf s leaf w
            = (Done None,
               {| backend := <[address (info s) k := v]> (backend w);
                  rpcs := (rpcs w ++ [CallGetLeaves (read_of (info s) k)])
                          ++ [CallSetLeaves (write_of (info s) k v)] |}))
    as Hput.
  { intros cur r Hcur Hc. pose proof (memmap_get (info s) k w) as Hget.
    rewrite Hcur in Hget. destruct (json_Marshal r) as [v|err] eqn:Hv.
    - right. exists v. split; [done|].
      by rewrite (Leaf_put _ _ _ _ _ _ _ _ _ _ _ Hobs Hget Hc Hv).
    - left. rewrite (Leaf_observed _ _ _ _ _ _ Hobs).
      unfold bind at 1. rewrite Hget.
      assert (forall r', r' = r ->
        ((_ <- saveRecord (info s) k r' ;; ret None)%go
           {| backend := backend w;
              rpcs := rpcs w ++ [CallGetLeaves (read_of (info s) k)] |}).1
        <> Done (None : option error)) as Hno.
      { intros r' ->. unfold bind.
        by rewrite (saveRecord_unmarshalable _ _ _ _ _ Hv). }
      destruct Hc as [|cr ct (cts & Hcts & Hct) Hlt|cr (cts & Hcts & Hct)].
      + by apply Hno.
      + rewrite Hcts. simpl assert_string. unfold bind at 1, ret at 1.
        rewrite Hct. unfold Before, After.
        destruct (Z.ltb_spec t ct); [lia|].
        destruct (Z.ltb_spec ct t); [|lia]. by apply Hno.
      + rewrite Hcts. simpl assert_string. unfold bind at 1, ret at 1.
        rewrite Hct. unfold Before, After. rewrite Z.ltb_irrefl.
        by apply Hno. }
  pose proof (memmap_get (info s) k w) as Hget.
  destruct (lookup_record (backend w) (address (info s) k))
    as [[cr|]|err] eqn:Hcur.
  - destruct (map_index (Entry cr) "entry-timestamp") as [| | |cts| |] eqn:Hcts;
      try (left; rewrite (Leaf_observed _ _ _ _ _ _ Hobs); unfold bind at 1;
           rewrite Hget, Hcts; by simpl).
    destruct (time_Parse_RFC3339 cts) as [ct|err] eqn:Hct.
    + assert (timestamp cr ct) as Hcr by by exists cts.
      destruct (Z.lt_trichotomy t ct) as [Hlt|[->|Hgt]].
      * right; left. exists cr, ct. repeat split; try done.
        by rewrite (Leaf_skip _ _ _ _ _ _ _ _ _ _ Hobs Hget Hcr Hlt).
      * destruct (Hput (Some cr) (add cr (Some it)) eq_refl) as [?|(v & ? & ?)];
          [by constructor|by left|].
        right; right. exists (Some cr), (add cr (Some it)), v.
        repeat split; try done. by constructor.
      * destruct (Hput (Some cr) {| Entry := Some e; Items := [Some it] |}
                    eq_refl) as [?|(v & ? & ?)];
          [by econstructor|by left|].
        right; right. exists (Some cr), {| Entry := Some e; Items := [Some it] |}, v.
        repeat split; try done. by econstructor.
    + left. rewrite (Leaf_observed _ _ _ _ _ _ Hobs). unfold bind at 1.
      rewrite Hget, Hcts. simpl assert_string. unfold bind at 1, ret at 1.
      by rewrite Hct.
  - destruct (Hput None {| Entry := Some e; Items := [Some it] |} eq_refl)
      as [?|(v & ? & ?)]; [by constructor|by left|].
    right; right. exists None, {| Entry := Some e; Items := [Some it] |}, v.
    repeat split; try done. by constructor.
  - left. rewrite (Leaf_observed _ _ _ _ _ _ Hobs). unfold bind at 1.
    by rewrite Hget.
Qed.

(** On the in-memory map the write cannot fail: the computed record is stored
    at the address of the key and [Leaf] returns nil. *)
Lemma memmap_Leaf_put s leaf k e t it cur r v w :
  observes leaf k e t it ->
  lookup_record (backend w) (address (info s) k) = Ok cur ->
  computes e t it cur r ->
  json_Marshal r = Ok v ->
  Leaf s leaf w
  = (Done None,
     {| backend := <[address (info s) k := v]> (backend w);
        rpcs := (rpcs w ++ [CallGetLeaves (read_of (info s) k)])
                ++ [CallSetLeaves (write_of (info s) k v)] |}).
Proof.
  intros Hobs Hcur Hc Hv. pose proof (memmap_get (info s) k w) as Hget.
  rewrite Hcur in Hget.
  by rewrite (Leaf_put _ _ _ _ _ _ _ _ _ _ _ Hobs Hget Hc Hv).
Qed.

Lemma memmap_Leaf_skip s leaf k e t it cr ct w :
  observes leaf k e t it ->
  lookup_record (backend w) (address (info s) k) = Ok (Some cr) ->
  timestamp cr ct -> t < ct ->
  Leaf s leaf w
  = (Done None,
     {| backend := backend w;
        rpcs := rpcs w ++ [CallGetLeaves (read_of (info s) k)] |}).
Proof.
  intros Hobs Hcur Hct Hlt. pose proof (memmap_get (info s) k w) as Hget.
  rewrite Hcur in Hget.
  by rewrite (Leaf_skip _ _ _ _ _ _ _ _ _ _ Hobs Hget Hct Hlt).
Qed.

(** What is stored as a record marshals is found by [get]. *)
Lemma lookup_record_insert m a r v :
  json_roundtrip -> json_Marshal r = Ok v ->
  lookup_record (<[a := v]> m) a = Ok (Some r).
Proof.
  intros Hrt Hv. destruct (Hrt r v Hv) as [Hr Hne].
  eapply lookup_record_stored; [apply lookup_insert_eq|done..].
Qed.

(** ** Replaying a scan on the in-memory map *)

Lemma returns_nil_or_not (o : outcome (option error)) :
  o = Done None \/ o <> Done None.
Proof. destruct o as [[err|]|p|msg]; auto. Qed.

(** A covered observation is settled: its leaf returns nil and leaves the map
    as it is. *)
Lemma covered_settled s leaf k e t it w :
  observes leaf k e t it ->
  covered (backend w) (address (info s) k) t it ->
  (Leaf s leaf w).1 = Done None /\ backend (Leaf s leaf w).2 = backend w.
Proof.
  intros Hobs (v & r & ct & Hv & Hne & Hr & Hct & Hcov).
  pose proof (memmap_get (info s) k w) as Hget.
  rewrite (lookup_record_stored _ _ _ _ Hv Hne Hr) in Hget.
  destruct Hcov as [Hlt|(-> & Hfound & Hm)].
  - by rewrite (Leaf_skip _ _ _ _ _ _ _ _ _ _ Hobs Hget Hct Hlt).
  - pose proof (computes_merge e ct it r Hct) as Hc.
    rewrite (add_present _ _ Hfound) in Hc.
    rewrite (Leaf_put _ _ _ _ _ _ _ _ _ _ _ Hobs Hget Hc Hm). simpl.
    split; [done|]. by apply insert_id.
Qed.

(** After its leaf returned nil, an observation is covered. *)
Lemma Leaf_covers s leaf k e t it w :
  json_roundtrip ->
  observes leaf k e t it ->
  (Leaf s leaf w).1 = Done None ->
  covered (backend (Leaf s leaf w).2) (address (info s) k) t it.
Proof.
  intros Hrt Hobs Hnil.
  destruct (memmap_Leaf_cases s leaf k e t it w Hobs)
    as [?|[(cr & ct & Hcur & Hct & Hlt & ->)|(cur & r & v & Hcur & Hc & Hv & ->)]];
    [done| |]; simpl.
  - destruct (lookup_record_Some _ _ _ Hcur) as (v & ? & ? & ?).
    exists v, cr, ct. repeat split; try done. by left.
  - destruct (Hrt r v Hv) as [Hr Hne].
    exists v, r, t. rewrite lookup_insert_eq.
    repeat split; try done; [by eapply computes_timestamp|].
    right. repeat split; try done.
    destruct Hc; [| |apply add_found_add];
      cbn [Items add_found]; by rewrite DeepEqual_refl.
Qed.

(** A covered observation stays covered, whatever leaf comes next. *)
Lemma covered_preserved s leaf w a t it :
  json_roundtrip ->
  covered (backend w) a t it ->
  covered (backend (Leaf s leaf w).2) a t it.
Proof.
  intros Hrt Hcov.
  destruct (returns_nil_or_not (Leaf s leaf w).1) as [Hnil|Habort];
    [|by rewrite memmap_Leaf_abort].
  destruct (Leaf s leaf w) as [o w'] eqn:HL. simpl in Hnil. subst o.
  destruct (Leaf_nil_observes _ _ _ _ HL) as (k' & e' & t' & it' & Hobs).
  destruct (memmap_Leaf_cases s leaf k' e' t' it' w Hobs)
    as [Hno|[(cr & ct & Hcur & Hct & Hlt & HL')
            |(cur & r' & v' & Hcur & Hc & Hv' & HL')]].
  - by rewrite HL in Hno.
  - rewrite HL in HL'. by injection HL' as ->.
  - rewrite HL in HL'. injection HL' as ->. simpl.
    destruct (decide (address (info s) k' = a)) as [<-|Hne].
    + destruct Hcov as (v & r & ct & Hv & Hvne & Hr & Hct & Hcov).
      rewrite (lookup_record_stored _ _ _ _ Hv Hvne Hr) in Hcur.
      injection Hcur as <-.
      destruct (Hrt r' v' Hv') as [Hr' Hne'].
      exists v', r', t'. rewrite lookup_insert_eq.
      repeat split; try done; [by eapply computes_timestamp|].
      inversion Hc as [|cr ct' Hct' Hlt|cr Hct']; subst.
      * left. rewrite (timestamp_inj _ _ _ Hct Hct') in Hcov. lia.
      * rewrite (timestamp_inj _ _ _ Hct Hct') in Hcov.
        destruct Hcov as [?|(-> & Hfound & _)]; [by left|].
        right. repeat split; try done. by apply add_found_add_mono.
    + destruct Hcov as (v & r & ct & Hv & Hcov).
      exists v, r, ct. by rewrite lookup_insert_ne.
Qed.

(** Scanning the leaves once more after a scan leaves the map as the first
    scan left it; and what was covered before the first scan still is. *)
Lemma Scan_settled s leaves :
  json_roundtrip ->
  forall w obs,
    all_covered (backend w) obs ->
    all_covered (backend (Scan s leaves w).2) obs
    /\ forall tr,
         backend (Scan s leaves
                    {| backend := backend (Scan s leaves w).2; rpcs := tr |}).2
         = backend (Scan s leaves w).2.
Proof.
  intros Hrt. induction leaves as [|leaf rest IH]; intros w obs Hobs;
    [done|].
  destruct (returns_nil_or_not (Leaf s leaf w).1) as [Hnil|Habort].
  - rewrite (Scan_cons_nil s leaf rest w Hnil).
    destruct (Leaf s leaf w) as [o w'] eqn:HL. simpl in Hnil. subst o.
    cbn [snd].
    destruct (Leaf_nil_observes _ _ _ _ HL) as (k & e & t & it & Ho).
    pose proof (Leaf_covers s leaf k e t it w Hrt Ho) as Hcov.
    rewrite HL in Hcov. specialize (Hcov eq_refl). simpl in Hcov.
    assert (all_covered (backend w')
              ((address (info s) k, t, it) :: obs)) as Hobs'.
    { constructor; [done|]. eapply Forall_impl; [exact Hobs|].
      intros o Hc. pose proof (covered_preserved s leaf w _ _ _ Hrt Hc) as H.
      by rewrite HL in H. }
    destruct (IH w' _ Hobs') as [Hall Hstable].
    split; [by inversion Hall|]. intros tr.
    set (w1 := {| backend := backend (Scan s rest w').2; rpcs := tr |}).
    inversion_clear Hall as [|? ? Hk _]. simpl in Hk.
    destruct (covered_settled s leaf k e t it w1 Ho Hk) as [Hnil Hsame].
    rewrite (Scan_cons_nil s leaf rest w1 Hnil).
    destruct (Leaf s leaf w1) as [o [m1 tr1]]. simpl in Hnil, Hsame.
    subst o m1. apply Hstable.
  - pose proof (memmap_Leaf_abort s leaf w Habort) as Hsame.
    rewrite (proj1 (Scan_cons_abort s leaf rest w Habort)), Hsame.
    split; [done|]. intros tr.
    pose proof (trace_blind_Leaf s leaf (backend w) (rpcs w)) as Hw.
    assert ({| backend := backend w; rpcs := rpcs w |} = w) as Hwe
      by by destruct w.
    rewrite Hwe in Hw.
    pose proof (trace_blind_Leaf s leaf (backend w) tr) as Htr.
    rewrite Hw in Habort, Hsame. simpl in Habort, Hsame.
    rewrite (proj1 (Scan_cons_abort s leaf rest _ ltac:(by rewrite Htr))).
    by rewrite Htr.
Qed.

End MemMapFacts.

Lemma writes_app calls calls' :
  writes (calls ++ calls') = writes calls ++ writes calls'.
Proof. apply List.filter_app. Qed.

(** * The behaviour of the mapper *)

(** C4. When [get] reports no record for the key of an observation, [Leaf]
    creates the record whose Entry is the observed Entry and whose Items is
    the one observed Item: it makes one [SetLeaves] call that carries this
    record, marshalled, at the index of the key, and returns nil when the
    call succeeds; on the in-memory map the record is then stored under the
    key. *)
Theorem Leaf_create {libs : GoLibs} s leaf k e t it v :
  observes leaf k e t it ->
  json_Marshal {| Entry := Some e; Items := [Some it] |} = Ok v ->
  (forall St (tc : TrillianMapClient St) (w w1 : world St),
     get (info s) k w = (Done (Ok None), w1) ->
     Leaf s leaf w
     = (match (SetLeaves (write_of (info s) k v) (backend w1)).1 with
        | Ok _ => Done None
        | Err _ => Exited "SetLeaves() failed"
        end,
        {| backend := (SetLeaves (write_of (info s) k v) (backend w1)).2;
           rpcs := rpcs w1 ++ [CallSetLeaves (write_of (info s) k v)] |}))
  /\ (forall w : world memmap,
        lookup_record (backend w) (address (info s) k) = Ok None ->
        (Leaf s leaf w).1 = Done None
        /\ backend (Leaf s leaf w).2
           = <[address (info s) k := v]> (backend w)).
Proof.
  intros Hobs Hv. split.
  - intros St tc w w1 Hget.
    eapply Leaf_put; [done|exact Hget|constructor|done].
  - intros w Hcur.
    by rewrite (memmap_Leaf_put s leaf k e t it None _ v w Hobs Hcur
                  (computes_create e t it) Hv).
Qed.

(** C3. When the stored record of the key has a timestamp strictly before
    the one observed, [Leaf] replaces it: the record written has the observed
    Entry and the one observed Item, whatever Items the stored record
    held. *)
Theorem Leaf_replace {libs : GoLibs} s leaf k e t it cr ct v :
  observes leaf k e t it ->
  timestamp cr ct -> ct < t ->
  json_Marshal {| Entry := Some e; Items := [Some it] |} = Ok v ->
  (forall St (tc : TrillianMapClient St) (w w1 : world St),
     get (info s) k w = (Done (Ok (Some cr)), w1) ->
     Leaf s leaf w
     = (match (SetLeaves (write_of (info s) k v) (backend w1)).1 with
        | Ok _ => Done None
        | Err _ => Exited "SetLeaves() failed"
        end,
        {| backend := (SetLeaves (write_of (info s) k v) (backend w1)).2;
           rpcs := rpcs w1 ++ [CallSetLeaves (write_of (info s) k v)] |}))
  /\ (forall w : world memmap,
        lookup_record (backend w) (address (info s) k) = Ok (Some cr) ->
        (Leaf s leaf w).1 = Done None
        /\ backend (Leaf s leaf w).2
           = <[address (info s) k := v]> (backend w)).
Proof.
  intros Hobs Hct Hlt Hv. split.
  - intros St tc w w1 Hget.
    eapply Leaf_put; [done|exact Hget|by econstructor|done].
  - intros w Hcur.
    by rewrite (memmap_Leaf_put s leaf k e t it (Some cr) _ v w Hobs Hcur
                  (computes_replace e t it cr ct Hct Hlt) Hv).
Qed.

(** C2. When the stored record of the key has a timestamp strictly after the
    one observed, [Leaf] does nothing beyond the read that [get] made: it
    returns nil in the state [get] left, the only call added to the trace is
    that [GetLeaves], so no store write is issued; on the in-memory map the
    store is left as it was. *)
Theorem Leaf_stale {libs : GoLibs} s leaf k e t it cr ct :
  observes leaf k e t it ->
  timestamp cr ct -> t < ct ->
  (forall St (tc : TrillianMapClient St) (w w1 : world St),
     get (info s) k w = (Done (Ok (Some cr)), w1) ->
     Leaf s leaf w = (Done None, w1)
     /\ rpcs w1 = rpcs w ++ [CallGetLeaves (read_of (info s) k)]
     /\ writes (rpcs (Leaf s leaf w).2) = writes (rpcs w))
  /\ (forall w : world memmap,
        lookup_record (backend w) (address (info s) k) = Ok (Some cr) ->
        (Leaf s leaf w).1 = Done None
        /\ backend (Leaf s leaf w).2 = backend w
        /\ writes (rpcs (Leaf s leaf w).2) = writes (rpcs w)).
Proof.
  intros Hobs Hct Hlt. split.
  - intros St tc w w1 Hget.
    rewrite (Leaf_skip _ _ _ _ _ _ _ _ _ _ Hobs Hget Hct Hlt).
    assert (rpcs w1 = rpcs w ++ [CallGetLeaves (read_of (info s) k)]) as Hw1.
    { pose proof (get_world (info s) k w) as H. rewrite Hget in H.
      simpl in H. by rewrite H. }
    repeat split; [done|]. simpl. rewrite Hw1, writes_app. simpl.
    apply app_nil_r.
  - intros w Hcur.
    rewrite (memmap_Leaf_skip _ _ _ _ _ _ _ _ _ Hobs Hcur Hct Hlt). simpl.
    repeat split. rewrite writes_app. simpl. apply app_nil_r.
Qed.

(** Two leaves scanned on the in-memory map, both returning nil. *)
Lemma memmap_Scan_two {libs : GoLibs} (s : logScanner) (leaf1 leaf2 : LogLeaf)
    (w w1 w2 : world memmap) :
  Leaf s leaf1 w = (Done None, w1) ->
  Leaf s leaf2 w1 = (Done None, w2) ->
  Scan s [leaf1; leaf2] w = (Done None, w2).
Proof.
  intros H1 H2.
  rewrite Scan_cons_nil by by rewrite H1. rewrite H1. cbn [snd].
  rewrite Scan_cons_nil by by rewrite H2. by rewrite H2.
Qed.

(** C1. When the stored record of the key has the timestamp observed,
    [Leaf] merges: the record written keeps the stored Entry, and its Items
    are the stored Items, followed by the observed Item only if none of them
    is deeply equal to it; the record is written by one [SetLeaves] call, and
    on the in-memory map it is then stored under the key.  In particular,
    from a map with no record for the key, scanning two leaves that observe
    the same timestamp leaves the Items [A; B] when the second Item [B] is
    not deeply equal to the first Item [A], and the Items [A] when both
    observe [A]. *)
Theorem Leaf_merge {libs : GoLibs} s :
  (forall leaf k e t it cr v,
     observes leaf k e t it ->
     timestamp cr t ->
     json_Marshal (add cr (Some it)) = Ok v ->
     Entry (add cr (Some it)) = Entry cr
     /\ Items (add cr (Some it))
        = (if add_found (Some it) (Items cr) then Items cr
           else Items cr ++ [Some it])
     /\ (add_found (Some it) (Items cr) = true
         <-> exists ii, ii ∈ Items cr /\ DeepEqual (Some it) ii = true)
     /\ (forall St (tc : TrillianMapClient St) (w w1 : world St),
           get (info s) k w = (Done (Ok (Some cr)), w1) ->
           Leaf s leaf w
           = (match (SetLeaves (write_of (info s) k v) (backend w1)).1 with
              | Ok _ => Done None
              | Err _ => Exited "SetLeaves() failed"
              end,
              {| backend := (SetLeaves (write_of (info s) k v) (backend w1)).2;
                 rpcs := rpcs w1 ++ [CallSetLeaves (write_of (info s) k v)] |}))
     /\ (forall w : world memmap,
           lookup_record (backend w) (address (info s) k) = Ok (Some cr) ->
           (Leaf s leaf w).1 = Done None
           /\ backend (Leaf s leaf w).2
              = <[address (info s) k := v]> (backend w)))
  /\ (json_roundtrip ->
      forall leafA leafB k eA eB t A B v1 v2 (w : world memmap),
        observes leafA k eA t A ->
        observes leafB k eB t B ->
        DeepEqual (Some B) (Some A) = false ->
        lookup_record (backend w) (address (info s) k) = Ok None ->
        json_Marshal {| Entry := Some eA; Items := [Some A] |} = Ok v1 ->
        json_Marshal {| Entry := Some eA; Items := [Some A; Some B] |}
        = Ok v2 ->
        (Scan s [leafA; leafB] w).1 = Done None
        /\ lookup_record (backend (Scan s [leafA; leafB] w).2)
             (address (info s) k)
           = Ok (Some {| Entry := Some eA; Items := [Some A; Some B] |}))
  /\ (json_roundtrip ->
      forall leafA leafA' k eA eA' t A v1 (w : world memmap),
        observes leafA k eA t A ->
        observes leafA' k eA' t A ->
        lookup_record (backend w) (address (info s) k) = Ok None ->
        json_Marshal {| Entry := Some eA; Items := [Some A] |} = Ok v1 ->
        (Scan s [leafA; leafA'] w).1 = Done None
        /\ lookup_record (backend (Scan s [leafA; leafA'] w).2)
             (address (info s) k)
           = Ok (Some {| Entry := Some eA; Items := [Some A] |})).
Proof.
  split; [|split].
  - intros leaf k e t it cr v Hobs Hct Hv.
    split; [apply add_Entry|]. split; [apply add_Items|].
    split; [apply add_found_spec|]. split.
    + intros St tc w w1 Hget.
      eapply Leaf_put; [done|exact Hget|by constructor|done].
    + intros w Hcur.
      by rewrite (memmap_Leaf_put s leaf k e t it (Some cr) _ v w Hobs Hcur
                    (computes_merge e t it cr Hct) Hv).
  - intros Hrt leafA leafB k eA eB t A B v1 v2 w HA HB Hne Hcur Hv1 Hv2.
    set (rA := {| Entry := Some eA; Items := [Some A] |}) in *.
    pose proof (memmap_Leaf_put s leafA k eA t A None rA v1 w HA Hcur
                  (computes_create eA t A) Hv1) as H1.
    assert (add rA (Some B)
            = {| Entry := Some eA; Items := [Some A; Some B] |}) as Hadd.
    { unfold add, rA. cbn [Items add_found Entry]. by rewrite Hne. }
    assert (computes eB t B (Some rA)
              {| Entry := Some eA; Items := [Some A; Some B] |}) as Hc.
    { rewrite <- Hadd. constructor. by eapply observes_timestamp. }
    erewrite memmap_Scan_two; [|exact H1|].
    2:{ eapply memmap_Leaf_put; [exact HB| |exact Hc|exact Hv2].
        cbn [backend]. by apply lookup_record_insert. }
    split; [done|]. cbn [snd backend]. by apply lookup_record_insert.
  - intros Hrt leafA leafA' k eA eA' t A v1 w HA HA' Hcur Hv1.
    set (rA := {| Entry := Some eA; Items := [Some A] |}) in *.
    pose proof (memmap_Leaf_put s leafA k eA t A None rA v1 w HA Hcur
                  (computes_create eA t A) Hv1) as H1.
    assert (add rA (Some A) = rA) as Hadd.
    { apply add_present. unfold rA. cbn [Items add_found].
      by rewrite DeepEqual_refl. }
    assert (computes eA' t A (Some rA) rA) as Hc.
    { rewrite <- Hadd at 2. constructor. by eapply observes_timestamp. }
    erewrite memmap_Scan_two; [|exact H1|].
    2:{ eapply memmap_Leaf_put; [exact HA'| |exact Hc|exact Hv1].
        cbn [backend]. by apply lookup_record_insert. }
    split; [done|]. cbn [snd backend]. by apply lookup_record_insert.
Qed.

(** C5. Replaying a scan is idempotent.  From any state of the in-memory map
    and for any sequence of leaves, scanning the sequence again from the
    state the first scan left gives the same map, hence the same record for
    every key, as scanning it once. *)
Theorem replay_idempotent {libs : GoLibs} (s : logScanner)
    (leaves : list LogLeaf) (w : world memmap) :
  json_roundtrip ->
  let once := (Scan s leaves w).2 in
  let twice := (Scan s leaves once).2 in
  backend twice = backend once
  /\ forall key,
       (get (info s) key twice).1 = (get (info s) key once).1.
Proof.
  intros Hrt once twice.
  assert (backend twice = backend once) as Hsame.
  { destruct (Scan_settled s leaves Hrt w [] (List.Forall_nil _)) as [_ H].
    specialize (H (rpcs once)). unfold twice.
    by replace once with {| backend := backend once; rpcs := rpcs once |}
      by by destruct once. }
  split; [done|]. intros key. rewrite !memmap_get. simpl. by rewrite Hsame.
Qed.

(** C6. Every branch of [Leaf] that is not the stale one issues exactly one
    store write, which carries the computed record: the writes of the trace
    grow by the one [SetLeaves] call for the marshalled record at the index
    of the key.  In the branch for equal timestamps this holds also when the
    observed Item is already among the stored Items: the record written is
    then the stored record itself. *)
Theorem Leaf_writes_once {St : Type} {tc : TrillianMapClient St}
    {libs : GoLibs} s leaf k e t it cur r v (w w1 : world St) :
  observes leaf k e t it ->
  get (info s) k w = (Done (Ok cur), w1) ->
  computes e t it cur r ->
  json_Marshal r = Ok v ->
  writes (rpcs (Leaf s leaf w).2)
  = writes (rpcs w) ++ [CallSetLeaves (write_of (info s) k v)]
  /\ (forall cr,
        cur = Some cr -> timestamp cr t ->
        add_found (Some it) (Items cr) = true ->
        r = cr).
Proof.
  intros Hobs Hget Hc Hv. split.
  - rewrite (Leaf_put _ _ _ _ _ _ _ _ _ _ _ Hobs Hget Hc Hv). simpl.
    pose proof (get_world (info s) k w) as H. rewrite Hget in H. simpl in H.
    rewrite H. simpl. rewrite !writes_app. simpl. by rewrite app_nil_r.
  - intros cr -> Hct Hfound.
    inversion Hc as [|cr' ct' Hct' Hlt|cr' Hct']; subst.
    + pose proof (timestamp_inj _ _ _ Hct Hct'). lia.
    + by apply add_present.
Qed.

(** C7. On the in-memory map, [get] answers the same, no record and no
    error, for a key whose index was never written and for a key whose index
    was written with a zero-length value. *)
Theorem get_conflates_empty_and_missing {libs : GoLibs} (i : mapInfo)
    (key : string) (calls : list rpc) :
  let never_written : memmap := ∅ in
  let written_empty : memmap := {[ address i key := [] ]} in
  never_written !! address i key = None
  /\ written_empty !! address i key = Some []
  /\ (get i key {| backend := never_written; rpcs := calls |}).1
     = Done (Ok None)
  /\ (get i key {| backend := written_empty; rpcs := calls |}).1
     = Done (Ok None).
Proof.
  intros never_written written_empty. rewrite !memmap_get. simpl.
  unfold lookup_record, never_written, written_empty.
  by rewrite lookup_empty, lookup_singleton_eq.
Qed.

(** C8, as amended.  [Leaf] decodes in the order of the code: the payload,
    the Entry, the [entry-timestamp], which is parsed at once, and only then
    the [key].  A leaf whose payload is not JSON, or whose Entry has a string
    [entry-timestamp] that does not parse, whether or not the Entry has a
    [key], makes [Leaf] return the decode error, with no call to the store,
    and the scan ends there with that error, the later leaves unprocessed.
    A leaf whose Entry has no [entry-timestamp], or something other than a
    string there, and a leaf whose [entry-timestamp] is a string that parses
    and whose Entry has no [key], or something other than a string there,
    make no error return: the unchecked type assertion panics, in [Leaf] and
    so in the scan, with no call to the store.  So a leaf with no [key]
    returns an error only if its timestamp is a string that does not parse,
    and panics otherwise. *)
Theorem Leaf_decode_failure {St : Type} {tc : TrillianMapClient St}
    {libs : GoLibs} s leaf rest (w : world St) :
  (forall err,
     json_Unmarshal_map (LogLeaf_LeafValue leaf) = Err err ->
     Leaf s leaf w = (Done (Some err), w)
     /\ Scan s (leaf :: rest) w = (Done (Some err), w))
  /\ (forall l e ts err,
        json_Unmarshal_map (LogLeaf_LeafValue leaf) = Ok l ->
        map_index l "Entry" = VMap e ->
        map_index (Some e) "entry-timestamp" = VString ts ->
        time_Parse_RFC3339 ts = Err err ->
        Leaf s leaf w = (Done (Some err), w)
        /\ Scan s (leaf :: rest) w = (Done (Some err), w))
  /\ (forall l e,
        json_Unmarshal_map (LogLeaf_LeafValue leaf) = Ok l ->
        map_index l "Entry" = VMap e ->
        (forall ts, map_index (Some e) "entry-timestamp" <> VString ts) ->
        Leaf s leaf w = (Panicked TypeAssertion, w)
        /\ Scan s (leaf :: rest) w = (Panicked TypeAssertion, w))
  /\ (forall l e ts t,
        json_Unmarshal_map (LogLeaf_LeafValue leaf) = Ok l ->
        map_index l "Entry" = VMap e ->
        map_index (Some e) "entry-timestamp" = VString ts ->
        time_Parse_RFC3339 ts = Ok t ->
        (forall k, map_index (Some e) "key" <> VString k) ->
        Leaf s leaf w = (Panicked TypeAssertion, w)
        /\ Scan s (leaf :: rest) w = (Panicked TypeAssertion, w))
  /\ (forall l e,
        json_Unmarshal_map (LogLeaf_LeafValue leaf) = Ok l ->
        map_index l "Entry" = VMap e ->
        (forall k, map_index (Some e) "key" <> VString k) ->
        (exists ts err,
           map_index (Some e) "entry-timestamp" = VString ts
           /\ time_Parse_RFC3339 ts = Err err
           /\ Leaf s leaf w = (Done (Some err), w)
           /\ Scan s (leaf :: rest) w = (Done (Some err), w))
        \/ (((forall ts, map_index (Some e) "entry-timestamp" <> VString ts)
             \/ exists ts t,
                  map_index (Some e) "entry-timestamp" = VString ts
                  /\ time_Parse_RFC3339 ts = Ok t)
            /\ Leaf s leaf w = (Panicked TypeAssertion, w)
            /\ Scan s (leaf :: rest) w = (Panicked TypeAssertion, w))).
Proof.
  assert (forall o, Leaf s leaf w = (o, w) -> o <> Done None ->
            Leaf s leaf w = (o, w) /\ Scan s (leaf :: rest) w = (o, w))
    as Hscan.
  { intros o HL Ho. split; [done|]. simpl. unfold bind. rewrite HL.
    by destruct o as [[err|]|p|msg]. }
  assert (forall l e ts err,
            json_Unmarshal_map (LogLeaf_LeafValue leaf) = Ok l ->
            map_index l "Entry" = VMap e ->
            map_index (Some e) "entry-timestamp" = VString ts ->
            time_Parse_RFC3339 ts = Err err ->
            Leaf s leaf w = (Done (Some err), w)
            /\ Scan s (leaf :: rest) w = (Done (Some err), w)) as Hparse.
  { intros l e ts err Hl He Hts Ht. apply Hscan; [|done].
    unfold Leaf. rewrite Hl, He. cbn [assert_map].
    unfold bind at 1, ret at 1. rewrite Hts. cbn [assert_string].
    unfold bind at 1, ret at 1. by rewrite Ht. }
  assert (forall l e,
            json_Unmarshal_map (LogLeaf_LeafValue leaf) = Ok l ->
            map_index l "Entry" = VMap e ->
            (forall ts, map_index (Some e) "entry-timestamp" <> VString ts) ->
            Leaf s leaf w = (Panicked TypeAssertion, w)
            /\ Scan s (leaf :: rest) w = (Panicked TypeAssertion, w))
    as Hnots.
  { intros l e Hl He Hts. apply Hscan; [|done].
    unfold Leaf. rewrite Hl, He. cbn [assert_map].
    unfold bind at 1, ret at 1.
    destruct (map_index (Some e) "entry-timestamp") as [| | |ts| |] eqn:E;
      first [by exfalso; eapply Hts|by simpl]. }
  assert (forall l e ts t,
            json_Unmarshal_map (LogLeaf_LeafValue leaf) = Ok l ->
            map_index l "Entry" = VMap e ->
            map_index (Some e) "entry-timestamp" = VString ts ->
            time_Parse_RFC3339 ts = Ok t ->
            (forall k, map_index (Some e) "key" <> VString k) ->
            Leaf s leaf w = (Panicked TypeAssertion, w)
            /\ Scan s (leaf :: rest) w = (Panicked TypeAssertion, w))
    as Hnokey.
  { intros l e ts t Hl He Hts Ht Hk. apply Hscan; [|done].
    unfold Leaf. rewrite Hl, He. cbn [assert_map].
    unfold bind at 1, ret at 1. rewrite Hts. cbn [assert_string].
    unfold bind at 1, ret at 1. rewrite Ht. unfold bind at 1.
    destruct (map_index (Some e) "key") as [| | |k| |] eqn:E;
      first [by exfalso; eapply Hk|by simpl]. }
  split; [|split; [|split; [|split]]]; try done.
  - intros err Hl. apply Hscan; [|done]. unfold Leaf. by rewrite Hl.
  - intros l e Hl He Hk.
    destruct (map_index (Some e) "entry-timestamp") as [| | |ts| |] eqn:Hts;
      try (right; split; [by left|]; apply (Hnots l e Hl He);
           rewrite Hts; by intros ts).
    destruct (time_Parse_RFC3339 ts) as [t|err] eqn:Ht.
    + right. split; [right; by exists ts, t|]. by eapply Hnokey.
    + left. exists ts, err. split; [done|]. split; [done|].
      by eapply Hparse.
Qed.

(** C9. The operations that make or change a record keep its Items pairwise
    not deeply equal.  [createRecord], used to create and to replace, saves a
    record with the single Item given.  [add], used to merge, keeps the Items
    it finds, in their order, and appends the new Item only when none of them
    is deeply equal to it; so every record [Leaf] computes has pairwise
    distinct Items when the record it read had. *)
Theorem Items_stay_distinct :
  (forall St (tc : TrillianMapClient St) (libs : GoLibs) i key e it,
     createRecord i key e it
     = saveRecord i key {| Entry := e; Items := [it] |}
     /\ pairwise_distinct [it])
  /\ (forall r i,
        pairwise_distinct (Items r) -> pairwise_distinct (Items (add r i)))
  /\ (forall r i, Items r `prefix_of` Items (add r i))
  /\ (forall r i,
        (add_found i (Items r) = true -> add r i = r)
        /\ (add_found i (Items r) = false ->
            Items (add r i) = Items r ++ [i]))
  /\ (forall (libs : GoLibs) e t it cur r,
        computes e t it cur r ->
        (forall cr, cur = Some cr -> pairwise_distinct (Items cr)) ->
        pairwise_distinct (Items r)).
Proof.
  assert (forall r i, pairwise_distinct (Items r) ->
            pairwise_distinct (Items (add r i))) as Hadd.
  { intros r i Hd. rewrite add_Items.
    destruct (add_found i (Items r)) eqn:Hf; [done|].
    by apply pairwise_distinct_snoc. }
  split; [|split; [|split; [|split]]].
  - intros. split; [done|apply pairwise_distinct_singleton].
  - exact Hadd.
  - intros r i. rewrite add_Items. destruct (add_found i (Items r)); [done|].
    by apply prefix_app_r.
  - intros r i. split; [apply add_present|].
    intros Hf. by rewrite add_Items, Hf.
  - intros libs e t it cur r Hc Hcur.
    destruct Hc as [| |cr _]; try apply pairwise_distinct_singleton.
    apply Hadd. by apply Hcur.
Qed.

(** C10. [getLeaf] takes the first inclusion of the response without
    looking at the length of the list.  When [GetLeaves] answers without
    error and with no inclusion, [getLeaf] panics, index out of range: it
    returns neither a record nor an error, and so does [get].  Whenever
    [getLeaf] does return, the call failed or the response held at least one
    inclusion. *)
Theorem getLeaf_no_inclusion_panics {St : Type} {tc : TrillianMapClient St}
    {libs : GoLibs} (i : mapInfo) (key : string) (w : world St) :
  (forall resp,
     (GetLeaves (read_of i key) (backend w)).1 = Ok resp ->
     Resp_MapLeafInclusion resp = [] ->
     (getLeaf i key w).1 = Panicked IndexOutOfRange
     /\ (get i key w).1 = Panicked IndexOutOfRange
     /\ forall r, (getLeaf i key w).1 <> Done r)
  /\ (forall r,
        (getLeaf i key w).1 = Done r ->
        (exists err, (GetLeaves (read_of i key) (backend w)).1 = Err err)
        \/ (exists resp inc rest,
              (GetLeaves (read_of i key) (backend w)).1 = Ok resp
              /\ Resp_MapLeafInclusion resp = inc :: rest)).
Proof.
  split.
  - intros resp Hresp Hnone.
    assert ((getLeaf i key w).1 = Panicked IndexOutOfRange) as Hp.
    { unfold getLeaf, bind. rewrite call_GetLeaves_eq.
      fold (read_of i key). by rewrite Hresp, Hnone. }
    split; [done|]. split; [|by rewrite Hp].
    unfold get, bind. by destruct (getLeaf i key w) as [[]]; simplify_eq/=.
  - intros r. unfold getLeaf, bind. rewrite call_GetLeaves_eq.
    fold (read_of i key).
    destruct (GetLeaves (read_of i key) (backend w)).1 as [[[|inc rest]]|err];
      [done|right|left]; eauto.
Qed.

(** * The worked example *)

(** The tables of the example read back what they marshal. *)
Lemma Fixture_roundtrip : @json_roundtrip Fixture.libs.
Proof.
  intros r v. simpl. unfold Fixture.marshal, Fixture.unmarshal_record.
  repeat case_decide; intros [= <-]; subst; split; by vm_compute.
Qed.

Lemma Fixture_observes_leaf1 :
  @observes Fixture.libs Fixture.leaf1 "k1" (Fixture.entry Fixture.ts2020)
    1577836800000000000 Fixture.item1.
Proof.
  exists (Fixture.payload (Fixture.entry Fixture.ts2020) Fixture.item1),
    Fixture.ts2020.
  repeat split; vm_compute; reflexivity.
Qed.

Lemma Fixture_observes_leaf2 :
  @observes Fixture.libs Fixture.leaf2 "k1" (Fixture.entry Fixture.ts2020)
    1577836800000000000 Fixture.item2.
Proof.
  exists (Fixture.payload (Fixture.entry Fixture.ts2020) Fixture.item2),
    Fixture.ts2020.
  repeat split; vm_compute; reflexivity.
Qed.

Lemma Fixture_observes_leaf3 :
  @observes Fixture.libs Fixture.leaf3 "k1" (Fixture.entry Fixture.ts2019)
    1546300800000000000 Fixture.item99.
Proof.
  exists (Fixture.payload (Fixture.entry Fixture.ts2019) Fixture.item99),
    Fixture.ts2019.
  repeat split; vm_compute; reflexivity.
Qed.

Lemma Fixture_observes_leaf4 :
  @observes Fixture.libs Fixture.leaf4 "k1" (Fixture.entry Fixture.ts2021)
    1609459200000000000 Fixture.item3.
Proof.
  exists (Fixture.payload (Fixture.entry Fixture.ts2021) Fixture.item3),
    Fixture.ts2021.
  repeat split; vm_compute; reflexivity.
Qed.

Lemma Fixture_timestamp_record1 :
  @timestamp Fixture.libs Fixture.record1 1577836800000000000.
Proof. exists Fixture.ts2020. split; vm_compute; reflexivity. Qed.

(** The first leaf on the empty map creates the record of [k1]. *)
Lemma Leaf_create_witness :
  (@Leaf _ memmap_client Fixture.libs Fixture.scanner Fixture.leaf1
     Fixture.start).1 = Done None
  /\ backend (@Leaf _ memmap_client Fixture.libs Fixture.scanner
                Fixture.leaf1 Fixture.start).2
     = <[@address Fixture.libs (info Fixture.scanner) "k1"
         := bytes_of "record1"]> (backend Fixture.start).
Proof.
  apply (proj2 (@Leaf_create Fixture.libs Fixture.scanner Fixture.leaf1 "k1"
                  (Fixture.entry Fixture.ts2020) 1577836800000000000
                  Fixture.item1 (bytes_of "record1")
                  Fixture_observes_leaf1 ltac:(vm_compute; reflexivity))).
  vm_compute; reflexivity.
Defined.

(** The leaf of 2021 replaces the record of 2020. *)
Lemma Leaf_replace_witness :
  (@Leaf _ memmap_client Fixture.libs Fixture.scanner Fixture.leaf4
     (Fixture.stored (bytes_of "record1"))).1 = Done None
  /\ backend (@Leaf _ memmap_client Fixture.libs Fixture.scanner
                Fixture.leaf4 (Fixture.stored (bytes_of "record1"))).2
     = <[@address Fixture.libs (info Fixture.scanner) "k1"
         := bytes_of "record3"]>
         (backend (Fixture.stored (bytes_of "record1"))).
Proof.
  apply (proj2 (@Leaf_replace Fixture.libs Fixture.scanner Fixture.leaf4 "k1"
                  (Fixture.entry Fixture.ts2021) 1609459200000000000
                  Fixture.item3 Fixture.record1 1577836800000000000
                  (bytes_of "record3")
                  Fixture_observes_leaf4 Fixture_timestamp_record1
                  ltac:(lia) ltac:(vm_compute; reflexivity))).
  vm_compute; reflexivity.
Defined.

(** The leaf of 2019 leaves the record of 2020 alone. *)
Lemma Leaf_stale_witness :
  (@Leaf _ memmap_client Fixture.libs Fixture.scanner Fixture.leaf3
     (Fixture.stored (bytes_of "record1"))).1 = Done None
  /\ backend (@Leaf _ memmap_client Fixture.libs Fixture.scanner
                Fixture.leaf3 (Fixture.stored (bytes_of "record1"))).2
     = backend (Fixture.stored (bytes_of "record1"))
  /\ writes (rpcs (@Leaf _ memmap_client Fixture.libs Fixture.scanner
                     Fixture.leaf3 (Fixture.stored (bytes_of "record1"))).2)
     = writes (rpcs (Fixture.stored (bytes_of "record1"))).
Proof.
  apply (proj2 (@Leaf_stale Fixture.libs Fixture.scanner Fixture.leaf3 "k1"
                  (Fixture.entry Fixture.ts2019) 1546300800000000000
                  Fixture.item99 Fixture.record1 1577836800000000000
                  Fixture_observes_leaf3 Fixture_timestamp_record1
                  ltac:(lia))).
  vm_compute; reflexivity.
Defined.

(** At the timestamp of the stored record the second item is merged in; from
    the empty map the first two leaves leave both items, and the first leaf
    scanned twice leaves its item once. *)
Lemma Leaf_merge_witness :
  ((@Leaf _ memmap_client Fixture.libs Fixture.scanner Fixture.leaf2
      (Fixture.stored (bytes_of "record1"))).1 = Done None
   /\ backend (@Leaf _ memmap_client Fixture.libs Fixture.scanner
                 Fixture.leaf2 (Fixture.stored (bytes_of "record1"))).2
      = <[@address Fixture.libs (info Fixture.scanner) "k1"
          := bytes_of "record12"]>
          (backend (Fixture.stored (bytes_of "record1"))))
  /\ @lookup_record Fixture.libs
       (backend (@Scan _ memmap_client Fixture.libs Fixture.scanner
                   [Fixture.leaf1; Fixture.leaf2] Fixture.start).2)
       (@address Fixture.libs (info Fixture.scanner) "k1")
     = Ok (Some Fixture.record12)
  /\ @lookup_record Fixture.libs
       (backend (@Scan _ memmap_client Fixture.libs Fixture.scanner
                   [Fixture.leaf1; Fixture.leaf1] Fixture.start).2)
       (@address Fixture.libs (info Fixture.scanner) "k1")
     = Ok (Some Fixture.record1).
Proof.
  destruct (@Leaf_merge Fixture.libs Fixture.scanner)
    as (Hmerge & Hdistinct & Hsame).
  split; [|split].
  - apply (Hmerge Fixture.leaf2 "k1" (Fixture.entry Fixture.ts2020)
             1577836800000000000 Fixture.item2 Fixture.record1
             (bytes_of "record12") Fixture_observes_leaf2
             Fixture_timestamp_record1 ltac:(vm_compute; reflexivity)).
    vm_compute; reflexivity.
  - apply (Hdistinct Fixture_roundtrip Fixture.leaf1 Fixture.leaf2 "k1"
             (Fixture.entry Fixture.ts2020) (Fixture.entry Fixture.ts2020)
             1577836800000000000 Fixture.item1 Fixture.item2
             (bytes_of "record1") (bytes_of "record12") Fixture.start
             Fixture_observes_leaf1 Fixture_observes_leaf2);
      vm_compute; reflexivity.
  - apply (Hsame Fixture_roundtrip Fixture.leaf1 Fixture.leaf1 "k1"
             (Fixture.entry Fixture.ts2020) (Fixture.entry Fixture.ts2020)
             1577836800000000000 Fixture.item1
             (bytes_of "record1") Fixture.start
             Fixture_observes_leaf1 Fixture_observes_leaf1);
      vm_compute; reflexivity.
Defined.

(** Scanning the four leaves a second time changes nothing. *)
Lemma replay_idempotent_witness :
  let leaves :=
    [Fixture.leaf1; Fixture.leaf2; Fixture.leaf3; Fixture.leaf4] in
  let once :=
    (@Scan _ memmap_client Fixture.libs Fixture.scanner leaves
       Fixture.start).2 in
  let twice :=
    (@Scan _ memmap_client Fixture.libs Fixture.scanner leaves once).2 in
  backend twice = backend once
  /\ forall key,
       (@get _ memmap_client Fixture.libs (info Fixture.scanner) key twice).1
       = (@get _ memmap_client Fixture.libs (info Fixture.scanner) key
            once).1.
Proof.
  exact (@replay_idempotent Fixture.libs Fixture.scanner
           [Fixture.leaf1; Fixture.leaf2; Fixture.leaf3; Fixture.leaf4]
           Fixture.start Fixture_roundtrip).
Defined.

(** The first leaf again, on the record it created: the item is already
    there, and the unchanged record is written once more. *)
Lemma Leaf_writes_once_witness :
  writes (rpcs (@Leaf _ memmap_client Fixture.libs Fixture.scanner
                  Fixture.leaf1 (Fixture.stored (bytes_of "record1"))).2)
  = writes (rpcs (Fixture.stored (bytes_of "record1")))
    ++ [CallSetLeaves
          (@write_of Fixture.libs (info Fixture.scanner) "k1"
             (bytes_of "record1"))]
  /\ add Fixture.record1 (Some Fixture.item1) = Fixture.record1.
Proof.
  destruct (@Leaf_writes_once memmap memmap_client Fixture.libs
              Fixture.scanner Fixture.leaf1 "k1"
              (Fixture.entry Fixture.ts2020) 1577836800000000000
              Fixture.item1 (Some Fixture.record1)
              (add Fixture.record1 (Some Fixture.item1))
              (bytes_of "record1")
              (Fixture.stored (bytes_of "record1"))
              {| backend := backend (Fixture.stored (bytes_of "record1"));
                 rpcs := rpcs (Fixture.stored (bytes_of "record1"))
                         ++ [CallGetLeaves
                               (@read_of Fixture.libs
                                  (info Fixture.scanner) "k1")] |}
              Fixture_observes_leaf1) as [Hwrites Hsame].
  - rewrite memmap_get. reflexivity.
  - constructor. exact Fixture_timestamp_record1.
  - vm_compute; reflexivity.
  - split; [exact Hwrites|].
    apply (Hsame Fixture.record1 eq_refl Fixture_timestamp_record1).
    vm_compute; reflexivity.
Defined.

(** A leaf whose Entry has no [key] is no decode error for [Leaf]: the
    payload decodes, the timestamp parses, and [Leaf] panics instead of
    returning an error. *)
Lemma Leaf_missing_key_panics :
  map_index (Some {[ "entry-timestamp" := VString Fixture.ts2020 ]}) "key"
  = VNil
  /\ @json_Unmarshal_map Fixture.libs
       (LogLeaf_LeafValue Fixture.leaf_no_key)
     = Ok (Fixture.payload
             {[ "entry-timestamp" := VString Fixture.ts2020 ]}
             Fixture.item1)
  /\ (@Leaf _ memmap_client Fixture.libs Fixture.scanner
        Fixture.leaf_no_key Fixture.start).1 = Panicked TypeAssertion
  /\ ~ exists err,
         (@Leaf _ memmap_client Fixture.libs Fixture.scanner
            Fixture.leaf_no_key Fixture.start).1 = Done (Some err).
Proof.
  assert ((@Leaf _ memmap_client Fixture.libs Fixture.scanner
             Fixture.leaf_no_key Fixture.start).1 = Panicked TypeAssertion)
    as Hp by (vm_compute; reflexivity).
  repeat split; try (vm_compute; reflexivity).
  intros [err Herr]. rewrite Hp in Herr. discriminate.
Qed.

(** The leaf that is not JSON and the leaf with an unparsable timestamp end
    the scan with their error; so does the leaf with an unparsable timestamp
    and no [key]; the leaf with no [key] whose timestamp parses ends the scan
    with a panic. *)
Lemma Leaf_decode_failure_witness :
  @Scan _ memmap_client Fixture.libs Fixture.scanner
    [Fixture.leaf_malformed; Fixture.leaf1] Fixture.start
  = (Done (Some "unexpected end of JSON input"), Fixture.start)
  /\ @Scan _ memmap_client Fixture.libs Fixture.scanner
       [Fixture.leaf_bad_timestamp; Fixture.leaf1] Fixture.start
     = (Done (Some "parsing time: cannot parse"), Fixture.start)
  /\ @Scan _ memmap_client Edge.libs Fixture.scanner
       [Edge.leaf_no_key_bad_timestamp; Fixture.leaf1] Fixture.start
     = (Done (Some "parsing time: cannot parse"), Fixture.start)
  /\ @Scan _ memmap_client Fixture.libs Fixture.scanner
       [Fixture.leaf_no_key; Fixture.leaf1] Fixture.start
     = (Panicked TypeAssertion, Fixture.start).
Proof.
  split; [|split; [|split]].
  - apply (proj1 (@Leaf_decode_failure memmap memmap_client Fixture.libs
                    Fixture.scanner Fixture.leaf_malformed [Fixture.leaf1]
                    Fixture.start)).
    vm_compute; reflexivity.
  - apply (proj1 (proj2 (@Leaf_decode_failure memmap memmap_client
                           Fixture.libs Fixture.scanner
                           Fixture.leaf_bad_timestamp [Fixture.leaf1]
                           Fixture.start))
             (Fixture.payload
                {[ "key" := VString "k1";
                   "entry-timestamp" := VString "yesterday" ]}
                Fixture.item1)
             {[ "key" := VString "k1";
                "entry-timestamp" := VString "yesterday" ]}
             "yesterday");
      vm_compute; reflexivity.
  - apply (proj1 (proj2 (@Leaf_decode_failure memmap memmap_client
                           Edge.libs Fixture.scanner
                           Edge.leaf_no_key_bad_timestamp [Fixture.leaf1]
                           Fixture.start))
             (Fixture.payload
                {[ "entry-timestamp" := VString "yesterday" ]}
                Fixture.item1)
             {[ "entry-timestamp" := VString "yesterday" ]}
             "yesterday");
      vm_compute; reflexivity.
  - apply (proj1 (proj2 (proj2 (proj2
                    (@Leaf_decode_failure memmap memmap_client
                       Fixture.libs Fixture.scanner
                       Fixture.leaf_no_key [Fixture.leaf1]
                       Fixture.start))))
             (Fixture.payload
                {[ "entry-timestamp" := VString Fixture.ts2020 ]}
                Fixture.item1)
             {[ "entry-timestamp" := VString Fixture.ts2020 ]}
             Fixture.ts2020 1577836800000000000);
      try (vm_compute; reflexivity).
    intros k. vm_compute. discriminate.
Defined.

(** Merging a second item into the record of the example keeps the items
    distinct. *)
Lemma Items_stay_distinct_witness :
  pairwise_distinct (Items (add Fixture.record1 (Some Fixture.item2)))
  /\ pairwise_distinct (Items Fixture.record12).
Proof.
  destruct Items_stay_distinct as (_ & Hadd & _ & _ & Hcomputes).
  split.
  - apply (Hadd Fixture.record1 (Some Fixture.item2)).
    apply pairwise_distinct_singleton.
  - apply (Hcomputes Fixture.libs (Fixture.entry Fixture.ts2020)
             1577836800000000000 Fixture.item2 (Some Fixture.record1)
             (add Fixture.record1 (Some Fixture.item2))).
    + constructor. exact Fixture_timestamp_record1.
    + intros cr [= <-]. apply pairwise_distinct_singleton.
Defined.

(** A client that answers with no inclusion makes [getLeaf] panic. *)
Lemma getLeaf_no_inclusion_panics_witness :
  (@getLeaf unit no_inclusion_client Fixture.libs (newInfo 7) "k1"
     {| backend := tt; rpcs := [] |}).1 = Panicked IndexOutOfRange
  /\ (@get unit no_inclusion_client Fixture.libs (newInfo 7) "k1"
        {| backend := tt; rpcs := [] |}).1 = Panicked IndexOutOfRange
  /\ forall r,
       (@getLeaf unit no_inclusion_client Fixture.libs (newInfo 7) "k1"
          {| backend := tt; rpcs := [] |}).1 <> Done r.
Proof.
  apply (proj1 (@getLeaf_no_inclusion_panics unit no_inclusion_client
                  Fixture.libs (newInfo 7) "k1"
                  {| backend := tt; rpcs := [] |})
           {| Resp_MapLeafInclusion := [] |});
    reflexivity.
Defined.

(** * Further properties of the mapper *)

(** ** How a run of [Leaf] can go *)

Section LeafRuns.
Context {St : Type} {tc : TrillianMapClient St} {libs : GoLibs}.
Implicit Types (w : world St) (s : logScanner).


(** Every run of [Leaf] is of one of three kinds.  The leaf is no
    observation, [Leaf] makes no call and ends with an error or a failed type
    assertion.  Or the leaf is an observation, the only call is the read of
    [get], and [Leaf] returns nil only if the record read is strictly newer.
    Or the leaf is an observation, [get] returned, and the record computed is
    marshalled and written by one [SetLeaves] call. *)
Lemma Leaf_run_observed s leaf w :
  ((~ exists k e t it, observes leaf k e t it)
   /\ (Leaf s leaf w).2 = w
   /\ ((exists err, (Leaf s leaf w).1 = Done (Some err))
       \/ (Leaf s leaf w).1 = Panicked TypeAssertion))
  \/ exists k e t it,
       observes leaf k e t it
       /\ (((Leaf s leaf w).2 = (get (info s) k w).2
            /\ ((exists cr ct,
                   (get (info s) k w).1 = Done (Ok (Some cr))
                   /\ timestamp cr ct /\ t < ct
                   /\ (Leaf s leaf w).1 = Done None)
                \/ (Leaf s leaf w).1 <> Done None))
           \/ exists cur r v,
                (get (info s) k w).1 = Done (Ok cur)
                /\ computes e t it cur r
                /\ json_Marshal r = Ok v
                /\ Leaf s leaf w
                   = (match (SetLeaves (write_of (info s) k v)
                               (backend (get (info s) k w).2)).1 with
                      | Ok _ => Done None
                      | Err _ => Exited "SetLeaves() failed"
                      end,
                      {| backend :=
                           (SetLeaves (write_of (info s) k v)
                              (backend (get (info s) k w).2)).2;
                         rpcs := rpcs (get (info s) k w).2
                                 ++ [CallSetLeaves
                                       (write_of (info s) k v)] |})).
Proof.
  destruct (json_Unmarshal_map (LogLeaf_LeafValue leaf)) as [l|err] eqn:Hl.
  2:{ left. split;
        [intros (? & ? & ? & ? & ? & ? & ? & ? & ? & ? & ? & ?); congruence|].
      unfold Leaf. rewrite Hl. simpl. eauto. }
  destruct (map_index l "Entry") as [| | | | |e] eqn:He;
    try (left;
         split;
           [intros (? & ? & ? & ? & ? & ? & ? & ? & ? & ? & ? & ?);
            congruence|];
         assert (Leaf s leaf w = (Panicked TypeAssertion, w)) as ->
           by (unfold Leaf; by rewrite Hl, He);
         split; [done|by right]).
  destruct (map_index (Some e) "entry-timestamp") as [| | |ts| |] eqn:Hts;
    try (left;
         split;
           [intros (? & ? & ? & ? & ? & ? & ? & ? & ? & ? & ? & ?);
            congruence|];
         assert (Leaf s leaf w = (Panicked TypeAssertion, w)) as ->
           by (unfold Leaf; rewrite Hl, He; cbn [assert_map];
               unfold bind at 1, ret at 1; by rewrite Hts);
         split; [done|by right]).
  destruct (time_Parse_RFC3339 ts) as [t|err] eqn:Ht.
  2:{ left.
      split;
        [intros (? & ? & ? & ? & ? & ? & ? & ? & ? & ? & ? & ?); congruence|].
      assert (Leaf s leaf w = (Done (Some err), w)) as ->
        by (unfold Leaf; rewrite Hl, He; cbn [assert_map];
            unfold bind at 1, ret at 1; rewrite Hts; cbn [assert_string];
            unfold bind at 1, ret at 1; by rewrite Ht).
      split; [done|left; by exists err]. }
  destruct (map_index (Some e) "key") as [| | |k| |] eqn:Hk;
    try (left;
         split;
           [intros (? & ? & ? & ? & ? & ? & ? & ? & ? & ? & ? & ?);
            congruence|];
         assert (Leaf s leaf w = (Panicked TypeAssertion, w)) as ->
           by (unfold Leaf; rewrite Hl, He; cbn [assert_map];
               unfold bind at 1, ret at 1; rewrite Hts; cbn [assert_string];
               unfold bind at 1, ret at 1; rewrite Ht; unfold bind at 1;
               by rewrite Hk);
         split; [done|by right]).
  destruct (map_index l "Item") as [| | | | |it] eqn:Hit;
    try (left;
         split;
           [intros (? & ? & ? & ? & ? & ? & ? & ? & ? & ? & ? & ?);
            congruence|];
         assert (Leaf s leaf w = (Panicked TypeAssertion, w)) as ->
           by (unfold Leaf; rewrite Hl, He; cbn [assert_map];
               unfold bind at 1, ret at 1; rewrite Hts; cbn [assert_string];
               unfold bind at 1, ret at 1; rewrite Ht, Hk;
               cbn [assert_string]; unfold bind at 1, ret at 1;
               unfold bind at 1; by rewrite Hit);
         split; [done|by right]).
  assert (observes leaf k e t it) as Hobs by by exists l, ts.
  right. exists k, e, t, it. split; [done|].
  assert (forall cur r,
            (get (info s) k w).1 = Done (Ok cur) -> computes e t it cur r ->
            ((Leaf s leaf w).2 = (get (info s) k w).2
             /\ (Leaf s leaf w).1 <> Done None)
            \/ exists v, json_Marshal r = Ok v
                 /\ Leaf s leaf w
                    = (match (SetLeaves (write_of (info s) k v)
                                (backend (get (info s) k w).2)).1 with
                       | Ok _ => Done None
                       | Err _ => Exited "SetLeaves() failed"
                       end,
                       {| backend :=
                            (SetLeaves (write_of (info s) k v)
                               (backend (get (info s) k w).2)).2;
                          rpcs := rpcs (get (info s) k w).2
                                  ++ [CallSetLeaves
                                        (write_of (info s) k v)] |}))
    as Hput.
  { intros cur r Hcur Hc.
    destruct (get (info s) k w) as [og w1] eqn:Hget. simpl in Hcur.
    subst og. cbn [snd].
    destruct (json_Marshal r) as [v|err] eqn:Hv.
    - right. exists v. split; [done|]. by eapply Leaf_put.
    - left.
      assert (Leaf s leaf w = (Exited "Marshal() failed", w1)) as ->;
        [|done].
      rewrite (Leaf_observed _ _ _ _ _ _ Hobs).
      unfold bind at 1. rewrite Hget.
      assert (forall r', r' = r ->
        (_ <- saveRecord (info s) k r' ;; ret None)%go w1
        = (Exited "Marshal() failed" : outcome (option error), w1)) as Hno.
      { intros r' ->. unfold bind.
        by rewrite (saveRecord_unmarshalable _ _ _ _ _ Hv). }
      destruct Hc as [|cr ct (cts & Hcts & Hct) Hlt|cr (cts & Hcts & Hct)].
      + by apply Hno.
      + rewrite Hcts. cbn [assert_string]. unfold bind at 1, ret at 1.
        rewrite Hct. unfold Before, After.
        destruct (Z.ltb_spec t ct); [lia|].
        destruct (Z.ltb_spec ct t); [|lia]. by apply Hno.
      + rewrite Hcts. cbn [assert_string]. unfold bind at 1, ret at 1.
        rewrite Hct. unfold Before, After. rewrite Z.ltb_irrefl.
        by apply Hno. }
  destruct (get (info s) k w) as [og w1] eqn:Hget. cbn [fst snd] in *.
  assert (forall o, o <> Done None -> Leaf s leaf w = (o, w1) ->
            (Leaf s leaf w).2 = w1
            /\ ((exists cr ct,
                   og = Done (Ok (Some cr)) /\ timestamp cr ct /\ t < ct
                   /\ (Leaf s leaf w).1 = Done None)
                \/ (Leaf s leaf w).1 <> Done None)) as Habort.
  { intros o Ho ->. split; [done|by right]. }
  destruct og as [[[cr|]|err]|p|msg].
  - destruct (map_index (Entry cr) "entry-timestamp")
      as [| | |cts| |] eqn:Hcts;
      try (left; apply (Habort (Panicked TypeAssertion)); [done|];
           rewrite (Leaf_observed _ _ _ _ _ _ Hobs); unfold bind at 1;
           by rewrite Hget, Hcts).
    destruct (time_Parse_RFC3339 cts) as [ct|err] eqn:Hct.
    + assert (timestamp cr ct) as Hcr by by exists cts.
      destruct (Z.lt_trichotomy t ct) as [Hlt|[->|Hgt]].
      * left. rewrite (Leaf_skip _ _ _ _ _ _ _ _ _ _ Hobs Hget Hcr Hlt).
        split; [done|]. left. by exists cr, ct.
      * destruct (Hput (Some cr) (add cr (Some it)) eq_refl)
          as [[? ?]|(v & ? & ?)]; [by constructor|left; by eauto|].
        right. exists (Some cr), (add cr (Some it)), v.
        repeat split; try done. by constructor.
      * destruct (Hput (Some cr) {| Entry := Some e; Items := [Some it] |}
                    eq_refl) as [[? ?]|(v & ? & ?)];
          [by econstructor|left; by eauto|].
        right.
        exists (Some cr), {| Entry := Some e; Items := [Some it] |}, v.
        repeat split; try done. by econstructor.
    + left. apply (Habort (Done (Some err))); [done|].
      rewrite (Leaf_observed _ _ _ _ _ _ Hobs). unfold bind at 1.
      rewrite Hget, Hcts. cbn [assert_string]. unfold bind at 1, ret at 1.
      by rewrite Hct.
  - destruct (Hput None {| Entry := Some e; Items := [Some it] |} eq_refl)
      as [[? ?]|(v & ? & ?)]; [by constructor|left; by eauto|].
    right. exists None, {| Entry := Some e; Items := [Some it] |}, v.
    repeat split; try done. by constructor.
  - left. apply (Habort (Done (Some err))); [done|].
    rewrite (Leaf_observed _ _ _ _ _ _ Hobs). unfold bind at 1.
    by rewrite Hget.
  - left. apply (Habort (Panicked p)); [done|].
    rewrite (Leaf_observed _ _ _ _ _ _ Hobs). unfold bind at 1.
    by rewrite Hget.
  - left. apply (Habort (Exited msg)); [done|].
    rewrite (Leaf_observed _ _ _ _ _ _ Hobs). unfold bind at 1.
    by rewrite Hget.
Qed.

(** The same, without the first kind saying that the leaf is no
    observation. *)
Lemma Leaf_run s leaf w :
  ((Leaf s leaf w).2 = w
   /\ ((exists err, (Leaf s leaf w).1 = Done (Some err))
       \/ (Leaf s leaf w).1 = Panicked TypeAssertion))
  \/ exists k e t it,
       observes leaf k e t it
       /\ (((Leaf s leaf w).2 = (get (info s) k w).2
            /\ ((exists cr ct,
                   (get (info s) k w).1 = Done (Ok (Some cr))
                   /\ timestamp cr ct /\ t < ct
                   /\ (Leaf s leaf w).1 = Done None)
                \/ (Leaf s leaf w).1 <> Done None))
           \/ exists cur r v,
                (get (info s) k w).1 = Done (Ok cur)
                /\ computes e t it cur r
                /\ json_Marshal r = Ok v
                /\ Leaf s leaf w
                   = (match (SetLeaves (write_of (info s) k v)
                               (backend (get (info s) k w).2)).1 with
                      | Ok _ => Done None
                      | Err _ => Exited "SetLeaves() failed"
                      end,
                      {| backend :=
                           (SetLeaves (write_of (info s) k v)
                              (backend (get (info s) k w).2)).2;
                         rpcs := rpcs (get (info s) k w).2
                                 ++ [CallSetLeaves
                                       (write_of (info s) k v)] |})).
Proof.
  destruct (Leaf_run_observed s leaf w) as [[_ H]|H]; [by left|by right].
Qed.

End LeafRuns.

(** ** What [Leaf] calls, and when it returns nil *)

(** X1. Whatever the leaf and the client, [Leaf] adds to the trace of calls
    nothing, or one [GetLeaves], or one [GetLeaves] followed by one
    [SetLeaves].  It adds nothing exactly when the leaf is no observation.
    Otherwise both calls are for the map of the scanner and for the index
    that is the hash of the key the leaf observes, and the value written is
    the marshalled record computed from the observation and from what [get]
    returned.  When [Leaf] returns an error or panics, it has made no
    write. *)
Theorem Leaf_call_discipline {St : Type} {tc : TrillianMapClient St}
    {libs : GoLibs} (s : logScanner) (leaf : LogLeaf) (w : world St) :
  (exists calls,
     rpcs (Leaf s leaf w).2 = rpcs w ++ calls
     /\ ((calls = [] /\ ~ exists k e t it, observes leaf k e t it)
         \/ exists k e t it,
              observes leaf k e t it
              /\ (calls = [CallGetLeaves (read_of (info s) k)]
                  \/ exists cur r v,
                       (get (info s) k w).1 = Done (Ok cur)
                       /\ computes e t it cur r
                       /\ json_Marshal r = Ok v
                       /\ calls
                          = [CallGetLeaves (read_of (info s) k);
                             CallSetLeaves (write_of (info s) k v)])))
  /\ ((exists err, (Leaf s leaf w).1 = Done (Some err))
      \/ (exists p, (Leaf s leaf w).1 = Panicked p) ->
      writes (rpcs (Leaf s leaf w).2) = writes (rpcs w)).
Proof.
  destruct (Leaf_run_observed s leaf w)
    as [(Hno & Hw & _)
       |(k & e & t & it & Hobs
         & [[Hw _]|(cur & r & v & Hcur & Hc & Hv & HL)])].
  - rewrite Hw. split; [|done]. exists []. rewrite app_nil_r.
    split; [done|by left].
  - rewrite Hw, get_world. simpl. split.
    + exists [CallGetLeaves (read_of (info s) k)].
      split; [done|]. right. exists k, e, t, it. split; [done|by left].
    + intros _. rewrite writes_app. simpl. apply app_nil_r.
  - split.
    + rewrite HL, get_world. simpl.
      exists [CallGetLeaves (read_of (info s) k);
              CallSetLeaves (write_of (info s) k v)].
      rewrite <- app_assoc. simpl.
      split; [done|]. right. exists k, e, t, it. split; [done|].
      right. by exists cur, r, v.
    + rewrite HL. simpl.
      destruct (SetLeaves _ _).1; intros [[err' [=]]|[p [=]]].
Qed.

(** X2. [Leaf] returns nil only for the leaf of an observation for which
    [get] returned, and then either the record read is strictly newer and
    nothing more was done, or the computed record was marshalled and the one
    [SetLeaves] call that carries it succeeded. *)
Theorem Leaf_nil_inversion {St : Type} {tc : TrillianMapClient St}
    {libs : GoLibs} (s : logScanner) (leaf : LogLeaf) (w : world St) :
  (Leaf s leaf w).1 = Done None ->
  exists k e t it cur,
    observes leaf k e t it
    /\ (get (info s) k w).1 = Done (Ok cur)
    /\ ((exists cr ct,
           cur = Some cr /\ timestamp cr ct /\ t < ct
           /\ (Leaf s leaf w).2 = (get (info s) k w).2)
        \/ (exists r v,
              computes e t it cur r
              /\ json_Marshal r = Ok v
              /\ (SetLeaves (write_of (info s) k v)
                    (backend (get (info s) k w).2)).1 = Ok tt
              /\ rpcs (Leaf s leaf w).2
                 = rpcs (get (info s) k w).2
                   ++ [CallSetLeaves (write_of (info s) k v)])).
Proof.
  intros Hnil.
  destruct (Leaf_run s leaf w)
    as [[_ [[err H]|H]]
       |(k & e & t & it & Hobs
         & [[Hw [(cr & ct & Hg & Hct & Hlt & _)|H]]
           |(cur & r & v & Hg & Hc & Hv & HL)])];
    try congruence.
  - exists k, e, t, it, (Some cr). repeat split; try done.
    left. by exists cr, ct.
  - exists k, e, t, it, cur. repeat split; try done.
    right. exists r, v. rewrite HL in Hnil |- *. simpl in *.
    repeat split; try done.
    by destruct (SetLeaves _ _).1 as [[]|].
Qed.

(** ** Reading the store *)

(** X3. [get] is [getLeaf]: the wrapper passes on what [getLeaf] returns
    and keeps nothing between calls. *)
Theorem get_is_getLeaf {St : Type} {tc : TrillianMapClient St}
    {libs : GoLibs} (i : mapInfo) (key : string) (w : world St) :
  get i key w = getLeaf i key w.
Proof.
  unfold get, bind.
  by destruct (getLeaf i key w) as [[[[r|]|err]|p|msg] w'].
Qed.


(** X5. [getLeaf] decodes the first inclusion of the response and nothing
    else: the other inclusions and the index the leaf carries are not looked
    at.  A nil [Leaf] pointer in the first inclusion is dereferenced, which
    panics.  Otherwise a zero-length value gives no record and no error; a
    value that unmarshals gives the record; a value that does not gives the
    error of [json.Unmarshal]. *)
Theorem getLeaf_first_inclusion {St : Type} {tc : TrillianMapClient St}
    {libs : GoLibs} (i : mapInfo) (key : string) (w : world St) resp inc rest :
  (GetLeaves (read_of i key) (backend w)).1 = Ok resp ->
  Resp_MapLeafInclusion resp = inc :: rest ->
  (Inclusion_Leaf inc = None ->
   (getLeaf i key w).1 = Panicked NilDereference)
  /\ (forall index value,
        Inclusion_Leaf inc
        = Some {| MapLeaf_Index := index; MapLeaf_LeafValue := value |} ->
        (value = [] -> (getLeaf i key w).1 = Done (Ok None))
        /\ (forall r,
              value <> [] -> json_Unmarshal_record value = Ok r ->
              (getLeaf i key w).1 = Done (Ok (Some r)))
        /\ (forall err,
              value <> [] -> json_Unmarshal_record value = Err err ->
              (getLeaf i key w).1 = Done (Err err))).
Proof.
  intros Hresp Hinc.
  assert ((getLeaf i key w).1
          = match Inclusion_Leaf inc with
            | None => Panicked NilDereference
            | Some lf =>
                if (length (MapLeaf_LeafValue lf) =? 0)%nat
                then Done (Ok None)
                else match json_Unmarshal_record (MapLeaf_LeafValue lf) with
                     | Err err => Done (Err err)
                     | Ok r => Done (Ok (Some r))
                     end
            end) as ->.
  { unfold getLeaf, bind. rewrite call_GetLeaves_eq.
    fold (read_of i key). rewrite Hresp, Hinc.
    destruct (Inclusion_Leaf inc) as [lf|]; [|done].
    destruct (length _ =? 0)%nat; [done|].
    by destruct (json_Unmarshal_record _). }
  split; [by intros ->|]. intros index value ->. simpl.
  destruct value as [|b value]; simpl.
  - repeat split; done.
  - split; [done|]. split; [by intros r _ ->|by intros err _ ->].
Qed.

(** X6. When the read fails, [Leaf] returns the error of [get] and writes
    nothing: for a [GetLeaves] call that fails, and, on the in-memory map,
    for a stored value that is not empty and does not unmarshal, which is
    left in place. *)
Theorem Leaf_read_failure {libs : GoLibs} (s : logScanner) (leaf : LogLeaf)
    k e t it :
  observes leaf k e t it ->
  (forall St (tc : TrillianMapClient St) (w : world St) err,
     (GetLeaves (read_of (info s) k) (backend w)).1 = Err err ->
     (Leaf s leaf w).1 = Done (Some err)
     /\ writes (rpcs (Leaf s leaf w).2) = writes (rpcs w))
  /\ (forall (w : world memmap) v err,
        backend w !! address (info s) k = Some v ->
        v <> [] ->
        json_Unmarshal_record v = Err err ->
        (Leaf s leaf w).1 = Done (Some err)
        /\ backend (Leaf s leaf w).2 = backend w).
Proof.
  intros Hobs.
  assert (forall St (tc : TrillianMapClient St) (w : world St) err,
            (get (info s) k w).1 = Done (Err err) ->
            Leaf s leaf w = (Done (Some err), (get (info s) k w).2))
    as Hfail.
  { intros St tc w err Hget. rewrite (Leaf_observed _ _ _ _ _ _ Hobs).
    unfold bind at 1. destruct (get (info s) k w) as [og w1].
    simpl in Hget. by subst og. }
  split.
  - intros St tc w err Herr.
    assert ((get (info s) k w).1 = Done (Err err)) as Hget.
    { unfold get, getLeaf, bind. rewrite call_GetLeaves_eq.
      fold (read_of (info s) k). by rewrite Herr. }
    rewrite (Hfail _ _ _ _ Hget), get_world. simpl. split; [done|].
    rewrite writes_app. simpl. apply app_nil_r.
  - intros w v err Hv Hne Herr.
    assert ((get (info s) k w).1 = Done (Err err)) as Hget.
    { rewrite memmap_get. simpl. unfold lookup_record. rewrite Hv. simpl.
      destruct v; [done|]. simpl. by rewrite Herr. }
    rewrite (Hfail _ _ _ _ Hget), memmap_get. done.
Qed.

(** X7. When the Entry of the stored record has an [entry-timestamp] that
    does not parse, [Leaf] returns the parse error; when it has none, or not
    a string, the type assertion panics.  In both cases nothing was written:
    the state is the one [get] left. *)
Theorem Leaf_stored_timestamp_failure {St : Type}
    {tc : TrillianMapClient St} {libs : GoLibs} (s : logScanner)
    (leaf : LogLeaf) k e t it cr (w w1 : world St) :
  observes leaf k e t it ->
  get (info s) k w = (Done (Ok (Some cr)), w1) ->
  (forall cts err,
     map_index (Entry cr) "entry-timestamp" = VString cts ->
     time_Parse_RFC3339 cts = Err err ->
     Leaf s leaf w = (Done (Some err), w1))
  /\ ((forall cts, map_index (Entry cr) "entry-timestamp" <> VString cts) ->
      Leaf s leaf w = (Panicked TypeAssertion, w1)).
Proof.
  intros Hobs Hget. rewrite (Leaf_observed _ _ _ _ _ _ Hobs). split.
  - intros cts err Hcts Hct. unfold bind at 1. rewrite Hget, Hcts.
    cbn [assert_string]. unfold bind at 1, ret at 1. by rewrite Hct.
  - intros Hno. unfold bind at 1. rewrite Hget. unfold bind at 1.
    destruct (map_index (Entry cr) "entry-timestamp") as [| | |cts| |] eqn:E;
      first [by exfalso; eapply Hno|by simpl].
Qed.

(** X8. A payload that decodes to a map without an [Entry] object (the JSON
    [null] among them) makes [Leaf] panic on the type assertion; so does a
    payload whose Entry is in order but that has no [Item] object.  In both
    cases no call is made on the store. *)
Theorem Leaf_missing_Entry_or_Item {St : Type} {tc : TrillianMapClient St}
    {libs : GoLibs} (s : logScanner) (leaf : LogLeaf) (w : world St) l :
  json_Unmarshal_map (LogLeaf_LeafValue leaf) = Ok l ->
  ((forall e, map_index l "Entry" <> VMap e) ->
   Leaf s leaf w = (Panicked TypeAssertion, w))
  /\ (forall e ts t k,
        map_index l "Entry" = VMap e ->
        map_index (Some e) "entry-timestamp" = VString ts ->
        time_Parse_RFC3339 ts = Ok t ->
        map_index (Some e) "key" = VString k ->
        (forall it, map_index l "Item" <> VMap it) ->
        Leaf s leaf w = (Panicked TypeAssertion, w)).
Proof.
  intros Hl. split.
  - intros Hno. unfold Leaf. rewrite Hl. unfold bind at 1.
    destruct (map_index l "Entry") as [| | | | |e] eqn:E;
      first [by exfalso; eapply Hno|by simpl].
  - intros e ts t k He Hts Ht Hk Hno. unfold Leaf.
    rewrite Hl, He. cbn [assert_map]. unfold bind at 1, ret at 1.
    rewrite Hts. cbn [assert_string]. unfold bind at 1, ret at 1.
    rewrite Ht, Hk. cbn [assert_string]. unfold bind at 1, ret at 1.
    unfold bind at 1.
    destruct (map_index l "Item") as [| | | | |it] eqn:E;
      first [by exfalso; eapply Hno|by simpl].
Qed.

(** X9. A write that fails is no error return: in a branch that writes,
    when the computed record does not marshal [Leaf] ends the process with
    no [SetLeaves] call made, and when the [SetLeaves] call fails [Leaf]
    ends the process after that one call. *)
Theorem Leaf_write_failure {St : Type} {tc : TrillianMapClient St}
    {libs : GoLibs} (s : logScanner) (leaf : LogLeaf) k e t it cur r
    (w w1 : world St) :
  observes leaf k e t it ->
  get (info s) k w = (Done (Ok cur), w1) ->
  computes e t it cur r ->
  (forall err,
     json_Marshal r = Err err ->
     Leaf s leaf w = (Exited "Marshal() failed", w1))
  /\ (forall v err,
        json_Marshal r = Ok v ->
        (SetLeaves (write_of (info s) k v) (backend w1)).1 = Err err ->
        (Leaf s leaf w).1 = Exited "SetLeaves() failed"
        /\ rpcs (Leaf s leaf w).2
           = rpcs w1 ++ [CallSetLeaves (write_of (info s) k v)]).
Proof.
  intros Hobs Hget Hc. split.
  - intros err Hv. rewrite (Leaf_observed _ _ _ _ _ _ Hobs).
    unfold bind at 1. rewrite Hget.
    assert (forall r', r' = r ->
      (_ <- saveRecord (info s) k r' ;; ret None)%go w1
      = (Exited "Marshal() failed" : outcome (option error), w1)) as Hno.
    { intros r' ->. unfold bind.
      by rewrite (saveRecord_unmarshalable _ _ _ _ _ Hv). }
    destruct Hc as [|cr ct (cts & Hcts & Hct) Hlt|cr (cts & Hcts & Hct)].
    + by apply Hno.
    + rewrite Hcts. cbn [assert_string]. unfold bind at 1, ret at 1.
      rewrite Hct. unfold Before, After.
      destruct (Z.ltb_spec t ct); [lia|].
      destruct (Z.ltb_spec ct t); [|lia]. by apply Hno.
    + rewrite Hcts. cbn [assert_string]. unfold bind at 1, ret at 1.
      rewrite Hct. unfold Before, After. rewrite Z.ltb_irrefl.
      by apply Hno.
  - intros v err Hv Herr.
    rewrite (Leaf_put _ _ _ _ _ _ _ _ _ _ _ Hobs Hget Hc Hv). simpl.
    by rewrite Herr.
Qed.

(** ** What a leaf does to the in-memory map *)

Lemma lookup_record_insert_ne {libs : GoLibs} (m : memmap) a a' v :
  a' <> a -> lookup_record (<[a' := v]> m) a = lookup_record m a.
Proof. intros Hne. unfold lookup_record. by rewrite lookup_insert_ne. Qed.

(** X10. [Leaf] changes the in-memory map at most at the address of the key
    it observes: every other address keeps its value, and a leaf that is no
    observation changes nothing. *)
Theorem Leaf_touches_only_its_key {libs : GoLibs} (s : logScanner)
    (leaf : LogLeaf) (w : world memmap) :
  (forall a,
     (forall k e t it, observes leaf k e t it -> address (info s) k <> a) ->
     backend (Leaf s leaf w).2 !! a = backend w !! a)
  /\ ((forall k e t it, ~ observes leaf k e t it) ->
      backend (Leaf s leaf w).2 = backend w).
Proof.
  split.
  - intros a Hne.
    destruct (Leaf_run s leaf w)
      as [[Hw _]
         |(k & e & t & it & Hobs & [[Hw _]|(cur & r & v & _ & _ & _ & HL)])].
    + by rewrite Hw.
    + by rewrite Hw, memmap_get.
    + rewrite HL, memmap_get. simpl.
      apply lookup_insert_ne. by eapply Hne.
  - intros Hno. apply memmap_Leaf_abort. intros Hnil.
    destruct (Leaf s leaf w) as [o w'] eqn:HL. simpl in Hnil. subst o.
    destruct (Leaf_nil_observes _ _ _ _ HL) as (k & e & t & it & Hobs).
    by eapply Hno.
Qed.

(** The timestamp of the record stored at an address does not go back when
    a leaf is processed. *)
Lemma Leaf_timestamp_mono {libs : GoLibs} (s : logScanner) (leaf : LogLeaf)
    (w : world memmap) a cr ct :
  json_roundtrip ->
  lookup_record (backend w) a = Ok (Some cr) ->
  timestamp cr ct ->
  exists cr' ct',
    lookup_record (backend (Leaf s leaf w).2) a = Ok (Some cr')
    /\ timestamp cr' ct' /\ ct <= ct'.
Proof.
  intros Hrt Hcr Hct.
  destruct (Leaf_run s leaf w)
    as [[Hw _]
       |(k & e & t & it & Hobs & [[Hw _]|(cur & r & v & Hg & Hc & Hv & HL)])].
  - rewrite Hw. exists cr, ct. repeat split; [done..|lia].
  - rewrite Hw, memmap_get. exists cr, ct. repeat split; [done..|lia].
  - rewrite HL. rewrite memmap_get in Hg |- *. simpl in Hg |- *.
    injection Hg as Hg.
    destruct (decide (address (info s) k = a)) as [<-|Hne].
    + rewrite Hcr in Hg. injection Hg as <-.
      exists r, t. rewrite (lookup_record_insert _ _ _ _ Hrt Hv).
      split; [done|]. split; [by eapply computes_timestamp|].
      inversion Hc as [|cr0 ct0 Hct0 Hlt|cr0 Hct0]; subst.
      * rewrite (timestamp_inj _ _ _ Hct Hct0). lia.
      * rewrite (timestamp_inj _ _ _ Hct Hct0). lia.
    + exists cr, ct. rewrite lookup_record_insert_ne by done.
      repeat split; [done..|lia].
Qed.

(** X11. On the in-memory map the timestamp of the record stored at an
    address never goes back: after a leaf, and after a whole scan however
    it ends, a record is still stored there and its timestamp is the same or
    later. *)
Theorem timestamp_never_decreases {libs : GoLibs} (s : logScanner)
    (w : world memmap) a cr ct :
  json_roundtrip ->
  lookup_record (backend w) a = Ok (Some cr) ->
  timestamp cr ct ->
  (forall leaf,
     exists cr' ct',
       lookup_record (backend (Leaf s leaf w).2) a = Ok (Some cr')
       /\ timestamp cr' ct' /\ ct <= ct')
  /\ (forall leaves,
        exists cr' ct',
          lookup_record (backend (Scan s leaves w).2) a = Ok (Some cr')
          /\ timestamp cr' ct' /\ ct <= ct').
Proof.
  intros Hrt Hcr Hct. split; [intros leaf; by eapply Leaf_timestamp_mono|].
  intros leaves. revert w cr ct Hcr Hct.
  induction leaves as [|leaf rest IH]; intros w cr ct Hcr Hct.
  - exists cr, ct. repeat split; [done..|lia].
  - destruct (Leaf_timestamp_mono s leaf w a cr ct Hrt Hcr Hct)
      as (cr1 & ct1 & Hcr1 & Hct1 & Hle).
    destruct (returns_nil_or_not (Leaf s leaf w).1) as [Hnil|Habort].
    + rewrite (Scan_cons_nil s leaf rest w Hnil).
      destruct (IH _ _ _ Hcr1 Hct1) as (cr2 & ct2 & ? & ? & ?).
      exists cr2, ct2. repeat split; [done..|lia].
    + rewrite (proj1 (Scan_cons_abort s leaf rest w Habort)).
      by exists cr1, ct1.
Qed.

(** A covered observation stays covered through a scan, and the leaves of a
    scan that returned nil are all covered at its end. *)
Lemma Scan_covers {libs : GoLibs} (s : logScanner) (leaves : list LogLeaf) :
  json_roundtrip ->
  forall w : world memmap,
    (Scan s leaves w).1 = Done None ->
    forall leaf k e t it,
      leaf ∈ leaves -> observes leaf k e t it ->
      covered (backend (Scan s leaves w).2) (address (info s) k) t it.
Proof.
  intros Hrt. induction leaves as [|leaf rest IH]; intros w Hnil leaf' k e t it
    Hin Hobs; [by apply elem_of_nil in Hin|].
  destruct (returns_nil_or_not (Leaf s leaf w).1) as [HL|Habort].
  2:{ by destruct (proj2 (Scan_cons_abort s leaf rest w Habort)). }
  rewrite (Scan_cons_nil s leaf rest w HL) in Hnil |- *.
  apply elem_of_cons in Hin as [->|Hin]; [|by eapply IH].
  pose proof (Leaf_covers s leaf k e t it w Hrt Hobs HL) as Hcov.
  destruct (Scan_settled s rest Hrt (Leaf s leaf w).2
              [(address (info s) k, t, it)]) as [Hall _].
  { by constructor. }
  by inversion Hall.
Qed.

(** X12. No observation is lost.  After a scan of the in-memory map that
    returned nil, for every leaf of the scan that is an observation the
    record stored under its key has a later timestamp, or has the observed
    timestamp and holds an item deeply equal to the observed one. *)
Theorem no_observation_lost {libs : GoLibs} (s : logScanner)
    (leaves : list LogLeaf) (w : world memmap) leaf k e t it :
  json_roundtrip ->
  (Scan s leaves w).1 = Done None ->
  leaf ∈ leaves ->
  observes leaf k e t it ->
  exists r ct,
    lookup_record (backend (Scan s leaves w).2) (address (info s) k)
    = Ok (Some r)
    /\ timestamp r ct
    /\ (t < ct
        \/ (t = ct
            /\ exists ii, ii ∈ Items r /\ DeepEqual (Some it) ii = true)).
Proof.
  intros Hrt Hnil Hin Hobs.
  destruct (Scan_covers s leaves Hrt w Hnil leaf k e t it Hin Hobs)
    as (v & r & ct & Hv & Hne & Hr & Hct & Hcov).
  exists r, ct. split; [by eapply lookup_record_stored|]. split; [done|].
  destruct Hcov as [?|(-> & Hfound & _)]; [by left|right].
  split; [done|]. by apply add_found_spec.
Qed.

(** X13. What [saveRecord] stores, [get] reads back.  On the in-memory map,
    with a codec that reads back what it marshals, after [saveRecord] of a
    record under a key, [get] returns that record for every key with the
    same hash, the key itself among them, and for every other key returns
    what it returned before. *)
Theorem get_after_saveRecord {libs : GoLibs} (i : mapInfo) (key : string)
    (r : record) (v : bytes) (w : world memmap) :
  json_roundtrip ->
  json_Marshal r = Ok v ->
  (saveRecord i key r w).1 = Done tt
  /\ forall key',
       (get i key' (saveRecord i key r w).2).1
       = if decide (sha256_Sum256 (bytes_of key')
                    = sha256_Sum256 (bytes_of key))
         then Done (Ok (Some r))
         else (get i key' w).1.
Proof.
  intros Hrt Hv. rewrite (memmap_saveRecord _ _ _ _ _ Hv).
  split; [done|]. intros key'. rewrite !memmap_get. simpl.
  unfold address. case_decide as Hh.
  - rewrite Hh. by rewrite (lookup_record_insert _ _ _ _ Hrt Hv).
  - rewrite lookup_record_insert_ne; [done|]. congruence.
Qed.

(** ** [record.add] *)

(** X14. Adding an item a second time changes nothing, and an item that is
    added makes the Items longer by one, an item that is found by none. *)
Theorem add_idempotent (r : record) (i : gomap) :
  add (add r i) i = add r i
  /\ length (Items (add r i))
     = (if add_found i (Items r) then length (Items r)
        else S (length (Items r))).
Proof.
  split.
  - apply add_present, add_found_add.
  - rewrite add_Items. destruct (add_found i (Items r)); [done|].
    rewrite length_app. simpl. lia.
Qed.

(** * The further properties on the worked example *)

(** The leaf without a key panics, and has written nothing. *)
Lemma Leaf_call_discipline_witness :
  writes (rpcs (@Leaf _ memmap_client Fixture.libs Fixture.scanner
                  Fixture.leaf_no_key Fixture.start).2)
  = writes (rpcs Fixture.start).
Proof.
  apply (proj2 (@Leaf_call_discipline memmap memmap_client Fixture.libs
                  Fixture.scanner Fixture.leaf_no_key Fixture.start)).
  right. exists TypeAssertion. vm_compute; reflexivity.
Defined.

(** The first leaf returns nil on the empty map: it was an observation and
    its record was written. *)
Lemma Leaf_nil_inversion_witness :
  exists k e t it cur,
    @observes Fixture.libs Fixture.leaf1 k e t it
    /\ (@get _ memmap_client Fixture.libs (info Fixture.scanner) k
          Fixture.start).1 = Done (Ok cur)
    /\ ((exists cr ct,
           cur = Some cr /\ @timestamp Fixture.libs cr ct /\ t < ct
           /\ (@Leaf _ memmap_client Fixture.libs Fixture.scanner
                 Fixture.leaf1 Fixture.start).2
              = (@get _ memmap_client Fixture.libs (info Fixture.scanner) k
                   Fixture.start).2)
        \/ (exists r v,
              @computes Fixture.libs e t it cur r
              /\ @json_Marshal Fixture.libs r = Ok v
              /\ (SetLeaves
                    (@write_of Fixture.libs (info Fixture.scanner) k v)
                    (backend
                       (@get _ memmap_client Fixture.libs
                          (info Fixture.scanner) k Fixture.start).2)).1
                 = Ok tt
              /\ rpcs (@Leaf _ memmap_client Fixture.libs Fixture.scanner
                         Fixture.leaf1 Fixture.start).2
                 = rpcs (@get _ memmap_client Fixture.libs
                           (info Fixture.scanner) k Fixture.start).2
                   ++ [CallSetLeaves
                         (@write_of Fixture.libs (info Fixture.scanner)
                            k v)])).
Proof.
  apply (@Leaf_nil_inversion memmap memmap_client Fixture.libs
           Fixture.scanner Fixture.leaf1 Fixture.start).
  vm_compute; reflexivity.
Defined.

(** A response with two inclusions, the first for another index: [getLeaf]
    decodes the first and returns its record. *)
Lemma getLeaf_first_inclusion_witness :
  let answer :=
    {| Resp_MapLeafInclusion :=
         [ {| Inclusion_Leaf :=
                Some {| MapLeaf_Index := bytes_of "elsewhere";
                        MapLeaf_LeafValue := bytes_of "record1" |} |};
           {| Inclusion_Leaf := None |} ] |} in
  (@getLeaf unit (canned_client (Ok answer) (Ok tt)) Fixture.libs
     (newInfo 7) "k1" {| backend := tt; rpcs := [] |}).1
  = Done (Ok (Some Fixture.record1)).
Proof.
  intros answer.
  apply (proj1 (proj2 (proj2
           (@getLeaf_first_inclusion unit (canned_client (Ok answer) (Ok tt))
              Fixture.libs (newInfo 7) "k1" {| backend := tt; rpcs := [] |}
              answer _ _ eq_refl eq_refl)
           (bytes_of "elsewhere") (bytes_of "record1") eq_refl)));
    [discriminate|vm_compute; reflexivity].
Defined.

(** A stored value that is not JSON: the leaf returns the error and the
    value stays. *)
Lemma Leaf_read_failure_witness :
  (@Leaf _ memmap_client Fixture.libs Fixture.scanner Fixture.leaf1
     (Fixture.stored (bytes_of "garbage"))).1
  = Done (Some "unexpected end of JSON input")
  /\ backend (@Leaf _ memmap_client Fixture.libs Fixture.scanner
                Fixture.leaf1 (Fixture.stored (bytes_of "garbage"))).2
     = backend (Fixture.stored (bytes_of "garbage")).
Proof.
  apply (proj2 (@Leaf_read_failure Fixture.libs Fixture.scanner
                  Fixture.leaf1 "k1" (Fixture.entry Fixture.ts2020)
                  1577836800000000000 Fixture.item1
                  Fixture_observes_leaf1)
           (Fixture.stored (bytes_of "garbage")) (bytes_of "garbage"));
    [vm_compute; reflexivity|discriminate|vm_compute; reflexivity].
Defined.

Lemma Edge_observes_leaf1 :
  @observes Edge.libs Fixture.leaf1 "k1" (Fixture.entry Fixture.ts2020)
    1577836800000000000 Fixture.item1.
Proof.
  exists (Fixture.payload (Fixture.entry Fixture.ts2020) Fixture.item1),
    Fixture.ts2020.
  repeat split; vm_compute; reflexivity.
Qed.

(** A stored record dated [yesterday] gives the parse error; a stored [{}]
    has no Entry and gives the panic. *)
Lemma Leaf_stored_timestamp_failure_witness :
  (@Leaf _ memmap_client Edge.libs Fixture.scanner Fixture.leaf1
     (Fixture.stored (bytes_of "undated"))).1
  = Done (Some "parsing time: cannot parse")
  /\ (@Leaf _ memmap_client Edge.libs Fixture.scanner Fixture.leaf1
        (Fixture.stored (bytes_of "{}"))).1
     = Panicked TypeAssertion.
Proof.
  assert (forall v cr,
            @lookup_record Edge.libs (backend (Fixture.stored v))
              (@address Edge.libs (info Fixture.scanner) "k1")
            = Ok (Some cr) ->
            @get _ memmap_client Edge.libs (info Fixture.scanner) "k1"
              (Fixture.stored v)
            = (Done (Ok (Some cr)),
               {| backend := backend (Fixture.stored v);
                  rpcs := rpcs (Fixture.stored v)
                          ++ [CallGetLeaves
                                (@read_of Edge.libs (info Fixture.scanner)
                                   "k1")] |})) as Hget.
  { intros v cr Hcr. rewrite memmap_get. by rewrite Hcr. }
  split.
  - rewrite (proj1 (@Leaf_stored_timestamp_failure memmap memmap_client
                      Edge.libs Fixture.scanner Fixture.leaf1 "k1"
                      (Fixture.entry Fixture.ts2020) 1577836800000000000
                      Fixture.item1 Edge.undated
                      (Fixture.stored (bytes_of "undated")) _
                      Edge_observes_leaf1
                      (Hget (bytes_of "undated") Edge.undated
                         ltac:(vm_compute; reflexivity)))
               "yesterday" "parsing time: cannot parse"
               ltac:(vm_compute; reflexivity)
               ltac:(vm_compute; reflexivity)).
    reflexivity.
  - rewrite (proj2 (@Leaf_stored_timestamp_failure memmap memmap_client
                      Edge.libs Fixture.scanner Fixture.leaf1 "k1"
                      (Fixture.entry Fixture.ts2020) 1577836800000000000
                      Fixture.item1 {| Entry := None; Items := [] |}
                      (Fixture.stored (bytes_of "{}")) _
                      Edge_observes_leaf1
                      (Hget (bytes_of "{}") {| Entry := None; Items := [] |}
                         ltac:(vm_compute; reflexivity)))
               ltac:(intros cts; discriminate)).
    reflexivity.
Defined.

(** The payload [null] and the payload without an Item both panic, with the
    store untouched. *)
Lemma Leaf_missing_Entry_or_Item_witness :
  @Leaf _ memmap_client Edge.libs Fixture.scanner Edge.leaf_null
    Fixture.start
  = (Panicked TypeAssertion, Fixture.start)
  /\ @Leaf _ memmap_client Edge.libs Fixture.scanner Edge.leaf_no_item
       Fixture.start
     = (Panicked TypeAssertion, Fixture.start).
Proof.
  split.
  - apply (proj1 (@Leaf_missing_Entry_or_Item memmap memmap_client Edge.libs
                    Fixture.scanner Edge.leaf_null Fixture.start None
                    ltac:(vm_compute; reflexivity))).
    intros e. discriminate.
  - assert (@json_Unmarshal_map Edge.libs
              (LogLeaf_LeafValue Edge.leaf_no_item)
            = Ok (Some {[ "Entry" := VMap (Fixture.entry Fixture.ts2020) ]}))
      as Hl by (vm_compute; reflexivity).
    apply (proj2 (@Leaf_missing_Entry_or_Item memmap memmap_client Edge.libs
                    Fixture.scanner Edge.leaf_no_item Fixture.start _ Hl)
             (Fixture.entry Fixture.ts2020) Fixture.ts2020
             1577836800000000000 "k1");
      try (vm_compute; reflexivity).
    intros it H. vm_compute in H. discriminate.
Defined.

(** A record outside the table does not marshal, and a client whose writes
    fail: both end the process. *)
Lemma Leaf_write_failure_witness :
  let client :=
    canned_client
      (Ok {| Resp_MapLeafInclusion :=
               [ {| Inclusion_Leaf :=
                      Some {| MapLeaf_Index := bytes_of "k1";
                              MapLeaf_LeafValue := [] |} |} ] |})
      (Err "unavailable") in
  @Leaf _ memmap_client Fixture.libs Fixture.scanner Fixture.leaf3
    Fixture.start
  = (Exited "Marshal() failed",
     {| backend := backend Fixture.start;
        rpcs := rpcs Fixture.start
                ++ [CallGetLeaves
                      (@read_of Fixture.libs (info Fixture.scanner) "k1")] |})
  /\ (@Leaf unit client Fixture.libs Fixture.scanner Fixture.leaf1
        {| backend := tt; rpcs := [] |}).1
     = Exited "SetLeaves() failed".
Proof.
  intros client. split.
  - assert (@get _ memmap_client Fixture.libs (info Fixture.scanner) "k1"
              Fixture.start
            = (Done (Ok None),
               {| backend := backend Fixture.start;
                  rpcs := rpcs Fixture.start
                          ++ [CallGetLeaves
                                (@read_of Fixture.libs
                                   (info Fixture.scanner) "k1")] |}))
      as Hget by (rewrite memmap_get; reflexivity).
    apply (proj1 (@Leaf_write_failure memmap memmap_client Fixture.libs
                    Fixture.scanner Fixture.leaf3 "k1"
                    (Fixture.entry Fixture.ts2019) 1546300800000000000
                    Fixture.item99 None _ Fixture.start _
                    Fixture_observes_leaf3 Hget (computes_create _ _ _))
             "json: unsupported value").
    vm_compute; reflexivity.
  - assert (@get unit client Fixture.libs (info Fixture.scanner) "k1"
              {| backend := tt; rpcs := [] |}
            = (Done (Ok None),
               {| backend := tt;
                  rpcs := [CallGetLeaves
                             (@read_of Fixture.libs
                                (info Fixture.scanner) "k1")] |}))
      as Hget by reflexivity.
    apply (proj2 (@Leaf_write_failure unit client Fixture.libs
                    Fixture.scanner Fixture.leaf1 "k1"
                    (Fixture.entry Fixture.ts2020) 1577836800000000000
                    Fixture.item1 None _ {| backend := tt; rpcs := [] |} _
                    Fixture_observes_leaf1 Hget (computes_create _ _ _))
             (bytes_of "record1") "unavailable");
      [vm_compute; reflexivity|reflexivity].
Defined.

Lemma Fixture_leaf1_key k e t it :
  @observes Fixture.libs Fixture.leaf1 k e t it -> k = "k1".
Proof.
  intros (l & ts & Hl & He & _ & _ & Hk & _).
  vm_compute in Hl. injection Hl as <-.
  vm_compute in He. injection He as <-.
  vm_compute in Hk. by injection Hk as <-.
Qed.

(** The first leaf leaves the value of another key alone. *)
Lemma Leaf_touches_only_its_key_witness :
  backend (@Leaf _ memmap_client Fixture.libs Fixture.scanner Fixture.leaf1
             {| backend := {[ (7, bytes_of "k2") := bytes_of "record3" ]};
                rpcs := [] |}).2 !! (7, bytes_of "k2")
  = Some (bytes_of "record3").
Proof.
  rewrite (proj1 (@Leaf_touches_only_its_key Fixture.libs Fixture.scanner
                    Fixture.leaf1
                    {| backend := {[ (7, bytes_of "k2") := bytes_of "record3" ]};
                       rpcs := [] |})
             (7, bytes_of "k2")).
  - apply lookup_singleton_eq.
  - intros k e t it Hobs. rewrite (Fixture_leaf1_key _ _ _ _ Hobs).
    discriminate.
Defined.

(** From the record of 2020, the leaves of 2019 and 2021 leave a record dated
    2020 or later. *)
Lemma timestamp_never_decreases_witness :
  exists cr' ct',
    @lookup_record Fixture.libs
      (backend (@Scan _ memmap_client Fixture.libs Fixture.scanner
                  [Fixture.leaf3; Fixture.leaf4]
                  (Fixture.stored (bytes_of "record1"))).2)
      (@address Fixture.libs (info Fixture.scanner) "k1")
    = Ok (Some cr')
    /\ @timestamp Fixture.libs cr' ct' /\ 1577836800000000000 <= ct'.
Proof.
  apply (proj2 (@timestamp_never_decreases Fixture.libs Fixture.scanner
                  (Fixture.stored (bytes_of "record1"))
                  (@address Fixture.libs (info Fixture.scanner) "k1")
                  Fixture.record1 1577836800000000000
                  Fixture_roundtrip ltac:(vm_compute; reflexivity)
                  Fixture_timestamp_record1)).
Defined.

(** After the scan of the four leaves, the second leaf is accounted for. *)
Lemma no_observation_lost_witness :
  exists r ct,
    @lookup_record Fixture.libs
      (backend (@Scan _ memmap_client Fixture.libs Fixture.scanner
                  [Fixture.leaf1; Fixture.leaf2; Fixture.leaf3; Fixture.leaf4]
                  Fixture.start).2)
      (@address Fixture.libs (info Fixture.scanner) "k1")
    = Ok (Some r)
    /\ @timestamp Fixture.libs r ct
    /\ (1577836800000000000 < ct
        \/ (1577836800000000000 = ct
            /\ exists ii,
                 ii ∈ Items r /\ DeepEqual (Some Fixture.item2) ii = true)).
Proof.
  apply (@no_observation_lost Fixture.libs Fixture.scanner
           [Fixture.leaf1; Fixture.leaf2; Fixture.leaf3; Fixture.leaf4]
           Fixture.start Fixture.leaf2 "k1" (Fixture.entry Fixture.ts2020)
           1577836800000000000 Fixture.item2 Fixture_roundtrip
           ltac:(vm_compute; reflexivity)).
  - right. left.
  - exact Fixture_observes_leaf2.
Defined.

(** The record of the example is read back after it is saved. *)
Lemma get_after_saveRecord_witness :
  (@saveRecord _ memmap_client Fixture.libs (newInfo 7) "k1" Fixture.record1
     Fixture.start).1 = Done tt
  /\ forall key',
       (@get _ memmap_client Fixture.libs (newInfo 7) key'
          (@saveRecord _ memmap_client Fixture.libs (newInfo 7) "k1"
             Fixture.record1 Fixture.start).2).1
       = if decide (@sha256_Sum256 Fixture.libs (bytes_of key')
                    = @sha256_Sum256 Fixture.libs (bytes_of "k1"))
         then Done (Ok (Some Fixture.record1))
         else (@get _ memmap_client Fixture.libs (newInfo 7) key'
                 Fixture.start).1.
Proof.
  apply (@get_after_saveRecord Fixture.libs (newInfo 7) "k1" Fixture.record1
           (bytes_of "record1") Fixture.start Fixture_roundtrip).
  vm_compute; reflexivity.
Defined.
